(** * pyrpn: the calculator engine of Calculator.py, embedded and verified

    The engine (class Calculator, shared by SimpleCalculator, which only
    builds fewer buttons) is a Python object with mutable fields entry,
    stack, memory, angles and hyper, and a reference to the GUI it notifies
    (pyrpn.App, of which the error indicator, the shift state and press()
    are modelled).  It is embedded here as a record threaded through a
    state-and-exception monad: a Python exception leaves the mutations done
    so far in place, so a computation returns its outcome together with the
    state it reached.

    Numbers are Python floats, that is IEEE 754 binary64 values, modelled
    by Rocq's primitive floats.  The only int the engine ever stores is the
    literal 0 (placeholder registers and defaults); float arithmetic and
    comparison treat it as 0.0, which is how it is represented here. *)

From Stdlib Require Import ZArith String Ascii List Bool Lia.
From Stdlib Require Import DecimalString.
From Stdlib Require Import PrimFloat SpecFloat FloatOps.
From stdpp Require Import base list.

Open Scope Z_scope.

(** ** Python values and exceptions *)

Module Py.

(** The exceptions the engine can meet.  ZeroDivisionError and OverflowError
    are subclasses of ArithmeticError. *)
Inductive exn : Type :=
  | ValueError
  | ArithmeticError
  | ZeroDivisionError
  | OverflowError
  | IndexError
  | TypeError.

Inductive result (A : Type) : Type :=
  | Ok (a : A)
  | Raise (e : exn).
Arguments Ok {A} a.
Arguments Raise {A} e.

(** [except (ValueError, ArithmeticError)]: the classes and their subclasses. *)
Definition caught (e : exn) : bool :=
  match e with
  | ValueError | ArithmeticError | ZeroDivisionError | OverflowError => true
  | IndexError | TypeError => false
  end.

(** The float nearest to an integer (ties to even). *)
Definition float_of_Z (z : Z) : float :=
  SF2Prim (binary_normalize prec emax z 0 false).

(** The float nearest to the fraction n / d, n >= 0 (ties to even). *)
Definition float_of_fraction (n : Z) (d : positive) : float :=
  match n with
  | Zpos p =>
      SF2Prim (SFdiv prec emax (S754_finite false p 0) (S754_finite false d 0))
  | _ => 0%float
  end.

(** Truth value of a float: only zero is false. *)
Definition truthy (x : float) : bool := negb (PrimFloat.eqb x 0%float).

(** [value >= n] for a float and an int.  Python compares the two exactly;
    for the n used here (a small power of ten, itself a float) that is the
    float comparison.  A nan compares false. *)
Definition ge_int (value : float) (n : Z) : bool :=
  PrimFloat.leb (float_of_Z n) value.

(** [y / x]: true division raises on a zero divisor of either sign. *)
Definition truediv (y x : float) : result float :=
  if PrimFloat.eqb x 0%float then Raise ZeroDivisionError
  else Ok (PrimFloat.div y x).

(** math.pi, math.radians and math.degrees, as CPython computes them. *)
Definition pi : float := 0x1.921fb54442d18p+1%float.
Definition radians (x : float) : float :=
  PrimFloat.mul x (PrimFloat.div pi 180%float).
Definition degrees (x : float) : float :=
  PrimFloat.mul x (PrimFloat.div 180%float pi).

(** *** Strings *)

(** [str(n)] for a non-negative int. *)
Definition str (n : nat) : string := NilZero.string_of_uint (Nat.to_uint n).

(** [s.partition(c)] for a one-character separator. *)
Fixpoint partition (c : ascii) (s : string) : string * string * string :=
  match s with
  | EmptyString => (EmptyString, EmptyString, EmptyString)
  | String a r =>
      if Ascii.eqb a c then (EmptyString, String c EmptyString, r)
      else let '(w, sep, d) := partition c r in (String a w, sep, d)
  end.

(** [c in s]. *)
Fixpoint contains (c : ascii) (s : string) : bool :=
  match s with
  | EmptyString => false
  | String a r => Ascii.eqb a c || contains c r
  end.

(** [s[0:-1]]: all but the last character; the empty string stays empty. *)
Fixpoint drop_last (s : string) : string :=
  match s with
  | EmptyString => EmptyString
  | String a EmptyString => EmptyString
  | String a r => String a (drop_last r)
  end.

Definition is_digit (a : ascii) : bool :=
  (48 <=? nat_of_ascii a)%nat && (nat_of_ascii a <=? 57)%nat.

Fixpoint all_digits (s : string) : bool :=
  match s with
  | EmptyString => true
  | String a r => is_digit a && all_digits r
  end.

(** The integer a string of decimal digits denotes, most significant first. *)
Fixpoint digits_value (acc : Z) (s : string) : Z :=
  match s with
  | EmptyString => acc
  | String a r => digits_value (10 * acc + (Z.of_nat (nat_of_ascii a) - 48)) r
  end.

(** [float(s)] on the literals the engine builds: digits with at most one
    point and at least one digit, converted to the nearest float.  Every
    other string raises ValueError here; Python's float also accepts signs,
    exponents, underscores and blanks, none of which an entry text made of
    digit and point presses contains. *)
Definition float_of_string (s : string) : result float :=
  let '(whole, sep, dec) := partition "."%char s in
  if all_digits whole && all_digits dec
     && negb (String.length whole + String.length dec =? 0)%nat
  then Ok (float_of_fraction (digits_value 0 (whole ++ dec)%string)
             (Z.to_pos (10 ^ Z.of_nat (String.length dec))))
  else Raise ValueError.

(** *** Lists *)

(** [l[i]] with Python's negative indices. *)
Definition getitem {A} (l : list A) (i : Z) : result A :=
  let n := Z.of_nat (length l) in
  let j := if i <? 0 then i + n else i in
  if (0 <=? j) && (j <? n) then
    match l !! Z.to_nat j with
    | Some v => Ok v
    | None => Raise IndexError
    end
  else Raise IndexError.

(** [l[i] = v]. *)
Definition setitem {A} (l : list A) (i : Z) (v : A) : result (list A) :=
  let n := Z.of_nat (length l) in
  let j := if i <? 0 then i + n else i in
  if (0 <=? j) && (j <? n) then Ok (<[Z.to_nat j := v]> l)
  else Raise IndexError.

(** [l.pop()] on a non-empty list: the last element and the rest. *)
Definition list_pop {A} (l : list A) : option (A * list A) :=
  match last l with
  | Some v => Some (v, removelast l)
  | None => None
  end.

End Py.

Import Py.

(** ** The GUI the engine notifies (pyrpn.App)

    Only what the engine and a button press read or write: the error
    indicator, the shift state, and the calls received, latest first. *)

Inductive gui_call : Type :=
  | DrawStack
  | ShowEntry (text : string)
  | UpdateButtons.

Record App : Type := mkApp {
  err : bool;
  shifted : bool;
  shiftLock : bool;
  calls : list gui_call
}.

(** ** The engine state (class Calculator) *)

Inductive angle_unit : Type := RAD | DEG | GRAD.

Record Calculator : Type := mkCalculator {
  entry : option string;
  stack : list float;
  memory : list float;
  angles : angle_unit;
  hyper : bool;
  gui : App
}.

Definition PRECISION : nat := 8.
Definition NUMTYPE : string -> result float := float_of_string.

(** [Calculator()] once [App.initCalc] has bound the GUI. *)
Definition init : Calculator :=
  mkCalculator None [] [] RAD false (mkApp false false false []).

Definition set_entry (e : option string) (c : Calculator) : Calculator :=
  mkCalculator e (stack c) (memory c) (angles c) (hyper c) (gui c).
Definition set_stack (s : list float) (c : Calculator) : Calculator :=
  mkCalculator (entry c) s (memory c) (angles c) (hyper c) (gui c).
Definition set_memory (m : list float) (c : Calculator) : Calculator :=
  mkCalculator (entry c) (stack c) m (angles c) (hyper c) (gui c).
Definition set_angles (a : angle_unit) (c : Calculator) : Calculator :=
  mkCalculator (entry c) (stack c) (memory c) a (hyper c) (gui c).
Definition set_hyper (h : bool) (c : Calculator) : Calculator :=
  mkCalculator (entry c) (stack c) (memory c) (angles c) h (gui c).
Definition set_gui (g : App) (c : Calculator) : Calculator :=
  mkCalculator (entry c) (stack c) (memory c) (angles c) (hyper c) g.

(** ** Computations: state that survives a raised exception *)

Definition M (A : Type) : Type := Calculator -> result A * Calculator.

Definition ret {A} (a : A) : M A := fun c => (Ok a, c).
Definition raise {A} (e : exn) : M A := fun c => (Raise e, c).
Definition lift {A} (r : result A) : M A := fun c => (r, c).
Definition get : M Calculator := fun c => (Ok c, c).
Definition modify (f : Calculator -> Calculator) : M unit := fun c => (Ok tt, f c).

Definition bind {A B} (m : M A) (k : A -> M B) : M B :=
  fun c =>
    match m c with
    | (Ok a, c') => k a c'
    | (Raise e, c') => (Raise e, c')
    end.

(** [try: body except (ValueError, ArithmeticError): handler] *)
Definition try_except {A} (body handler : M A) : M A :=
  fun c =>
    match body c with
    | (Ok a, c') => (Ok a, c')
    | (Raise e, c') => if caught e then handler c' else (Raise e, c')
    end.

Notation "'let*' x ':=' m 'in' k" := (bind m (fun x => k))
  (at level 10, x name, m at level 100, k at level 200).
Notation "m ';;' k" := (bind m (fun _ => k))
  (at level 100, k at level 200, right associativity).

Definition when (b : bool) (m : M unit) : M unit := if b then m else ret tt.

(** *** Calls into the GUI *)

Definition gui_call_log (k : gui_call) (g : App) : App :=
  mkApp (err g) (shifted g) (shiftLock g) (k :: calls g).

Definition gui_drawStack : M unit :=
  modify (fun c => set_gui (gui_call_log DrawStack (gui c)) c).
Definition gui_entry (text : string) : M unit :=
  modify (fun c => set_gui (gui_call_log (ShowEntry text) (gui c)) c).
Definition gui_updateButtons : M unit :=
  modify (fun c => set_gui (gui_call_log UpdateButtons (gui c)) c).

(** [App.error(error)] sets or clears the indicator. *)
Definition gui_error (error : bool) : M unit :=
  modify (fun c =>
    set_gui (mkApp error (shifted (gui c)) (shiftLock (gui c)) (calls (gui c))) c).

(** [App.doShift], [App.unshift], [App.shift], [App.toggleShift]. *)
Definition gui_doShift (sh : bool) : M unit :=
  modify (fun c =>
    set_gui (mkApp (err (gui c)) sh (shiftLock (gui c)) (calls (gui c))) c) ;;
  gui_updateButtons ;;
  when (negb sh)
    (modify (fun c =>
      set_gui (mkApp (err (gui c)) (shifted (gui c)) false (calls (gui c))) c)).

Definition gui_unshift : M unit := gui_doShift false.

Definition gui_shift : M unit :=
  let* c := get in
  if shifted (gui c) then ret tt else gui_doShift true.

Definition gui_toggleShift : M unit :=
  let* c := get in
  if shifted (gui c) then gui_unshift
  else
    gui_shift ;;
    modify (fun c =>
      set_gui (mkApp (err (gui c)) (shifted (gui c)) true (calls (gui c))) c).

(** ** The engine operations (methods of Calculator) *)

(** [finalizeEntry]: commit the text being typed to register X. *)
Definition finalizeEntry : M unit :=
  let* c := get in
  match entry c with
  | None | Some EmptyString => ret tt
  | Some text =>
      when (match stack c with [] => true | _ => false end)
        (modify (fun c => set_stack (stack c ++ [0%float]) c)) ;;
      let* value := lift (NUMTYPE (String "0" text)) in
      let* c := get in
      let* s := lift (setitem (stack c) (-1) value) in
      modify (set_stack s) ;;
      modify (set_entry None) ;;
      gui_drawStack
  end.

Definition push (value : float) (silent : bool) : M unit :=
  finalizeEntry ;;
  modify (fun c => set_stack (stack c ++ [value]) c) ;;
  when (negb silent) gui_drawStack.

Definition pop (silent : bool) : M float :=
  finalizeEntry ;;
  let* c := get in
  let* value :=
    match list_pop (stack c) with
    | Some (v, rest) => modify (set_stack rest) ;; ret v
    | None => ret 0%float
    end in
  when (negb silent) gui_drawStack ;;
  ret value.

(** [getRegister(pos)] for a register index pos >= 0: [stack[-1-pos]] is
    the element at [len - 1 - pos] when [pos < len]. *)
Definition getRegister (pos : nat) (c : Calculator) : float :=
  if (pos <? length (stack c))%nat
  then nth (length (stack c) - 1 - pos) (stack c) 0%float
  else 0%float.

(** [enterDigit(digit)]; [str(digit)] is the text appended. *)
Definition enterDigit (digit : nat) : M unit :=
  let* c := get in
  let* text :=
    match entry c with
    | None => push 0%float false ;; modify (set_entry (Some EmptyString)) ;;
              ret EmptyString
    | Some text => ret text
    end in
  let '(whole, sep, dec) := partition "."%char text in
  if (if String.eqb sep EmptyString
      then (PRECISION <=? String.length whole)%nat
      else (PRECISION <=? String.length dec)%nat)
  then ret tt
  else
    let text' := if String.eqb text "0" then str digit
                 else (text ++ str digit)%string in
    modify (set_entry (Some text')) ;;
    gui_entry text'.

Definition enter : M unit :=
  let* c := get in
  match entry c with
  | None | Some EmptyString =>
      match last (stack c) with
      | Some x => push x false
      | None => push 0%float false
      end
  | Some _ => finalizeEntry
  end.

Definition shift : M unit := gui_toggleShift.

Definition decimal : M unit :=
  let* c := get in
  match entry c with
  | None | Some EmptyString =>
      push 0%float false ;;
      modify (set_entry (Some "0."%string)) ;;
      gui_entry "0."
  | Some text =>
      if contains "."%char text then ret tt
      else
        modify (set_entry (Some (text ++ ".")%string)) ;;
        gui_entry (text ++ ".")
  end.

Definition backspace : M unit :=
  let* c := get in
  match entry c with
  | None | Some EmptyString => ret tt
  | Some text =>
      let text' := drop_last text in
      modify (set_entry (Some text')) ;;
      if String.eqb text' EmptyString || String.eqb text' "0"
      then modify (set_entry None) ;; pop false ;; ret tt
      else gui_entry text'
  end.

Definition exchange : M unit :=
  finalizeEntry ;;
  let* x := pop true in
  let* y := pop true in
  push x true ;;
  push y false.

Definition clearStack : M unit :=
  modify (set_stack []) ;;
  modify (set_entry None) ;;
  gui_drawStack.

(** [getMemory(pos)]: a read of the bank; pos is any int. *)
Definition getMemory (pos : Z) (c : Calculator) : result float :=
  if pos <=? Z.of_nat (length (memory c))
  then getitem (memory c) (pos - 1)
  else Ok 0%float.

Definition saveMemory (pos : Z) : M unit :=
  finalizeEntry ;;
  let* c := get in
  when (Z.of_nat (length (memory c)) <? pos)
    (modify (fun c =>
       set_memory
         (memory c ++ replicate (Z.to_nat (pos - Z.of_nat (length (memory c)))) 0%float)
         c)) ;;
  let* c := get in
  let* m := lift (setitem (memory c) (pos - 1) (getRegister 0 c)) in
  modify (set_memory m) ;;
  gui_drawStack.

Definition loadMemory (pos : Z) : M unit :=
  let* c := get in
  let* value := lift (getMemory pos c) in
  push value false.

(** ** Buttons (ButtonBase and its subclasses) *)

(** A callable with the number of parameters [inspect.signature] reports.
    The one- and two-argument callables run against the engine because one
    of them does: the bound method [self.pop] has the single parameter
    [silent]. *)
Inductive callable : Type :=
  | Lam0 (f : M unit)
  | Lam1 (f : float -> M float)
  | Lam2 (f : float -> float -> M float).

(** A callable that only computes: it may raise, it leaves the engine alone. *)
Definition pure1 (g : float -> result float) : float -> M float :=
  fun x => lift (g x).
Definition pure2 (g : float -> float -> result float) : float -> float -> M float :=
  fun x y => lift (g x y).

Inductive Button : Type :=
  | OperationButton (name : string) (lam : callable)
      (alt : option string) (altlam : option callable)
  | TrigButton (tname : string) (tfunc : float -> result float)
      (itname : string) (itfunc : float -> result float)
      (hname : string) (hfunc : float -> result float)
      (ihname : string) (ihfunc : float -> result float)
  | TrigModeButton.

(** [button.alt], the name of the alternate function. *)
Definition alt_name (b : Button) : option string :=
  match b with
  | OperationButton _ _ alt _ => alt
  | TrigButton _ _ _ _ _ _ _ _ => Some "XXX"%string
  | TrigModeButton => Some "Hyp"%string
  end.

Definition str_truthy (s : option string) : bool :=
  match s with
  | None | Some EmptyString => false
  | Some _ => true
  end.

(** The overflow test of [do]: [if value >= 10 ** calc.PRECISION: raise]. *)
Definition check_precision (value : float) : M unit :=
  if ge_int value (10 ^ Z.of_nat PRECISION) then raise ArithmeticError
  else ret tt.

(** [OperationButton.do(lam)] *)
Definition OperationButton_do (lam : callable) : M unit :=
  match lam with
  | Lam0 f => f
  | Lam1 f =>
      finalizeEntry ;;
      let* x := pop true in
      try_except
        (let* value := f x in
         check_precision value ;;
         push value false)
        (push x false ;;
         gui_error true)
  | Lam2 f =>
      finalizeEntry ;;
      let* x := pop true in
      let* y := pop true in
      try_except
        (let* value := f x y in
         check_precision value ;;
         push value false)
        (push y true ;;
         push x false ;;
         gui_error true)
  end.

Definition TrigButton_action (tfunc hfunc : float -> result float) : M unit :=
  let* x := pop false in
  let* c := get in
  let a := match angles c with DEG => radians x | _ => x end in
  try_except
    (let* c := get in
     let* value := lift (if hyper c then hfunc a else tfunc a) in
     push value false)
    (push x false ;;
     gui_error true).

Definition TrigButton_alternate (itfunc ihfunc : float -> result float) : M unit :=
  let* x := pop false in
  try_except
    (let* c := get in
     let* value := lift (if hyper c then ihfunc x else itfunc x) in
     let value := match angles c with DEG => degrees value | _ => value end in
     push value false)
    (push x false ;;
     gui_error true).

Definition TrigModeButton_action : M unit :=
  modify (fun c => set_angles (match angles c with DEG => RAD | _ => DEG end) c) ;;
  gui_updateButtons.

Definition TrigModeButton_alternate : M unit :=
  modify (fun c => set_hyper (negb (hyper c)) c) ;;
  gui_updateButtons.

Definition action (b : Button) : M unit :=
  match b with
  | OperationButton _ lam _ _ => OperationButton_do lam
  | TrigButton _ tfunc _ _ _ hfunc _ _ => TrigButton_action tfunc hfunc
  | TrigModeButton => TrigModeButton_action
  end.

Definition alternate (b : Button) : M unit :=
  match b with
  | OperationButton _ _ _ altlam =>
      match altlam with
      | Some lam => OperationButton_do lam
      | None => ret tt
      end
  | TrigButton _ _ _ itfunc _ _ _ ihfunc => TrigButton_alternate itfunc ihfunc
  | TrigModeButton => TrigModeButton_alternate
  end.

Definition getLabel (b : Button) (shifted : bool) (c : Calculator) : string :=
  match b with
  | OperationButton name _ alt _ =>
      match alt with
      | Some a => if shifted && str_truthy alt then a else name
      | None => name
      end
  | TrigButton tname _ itname _ hname _ ihname _ =>
      if negb shifted then (if hyper c then hname else tname)
      else (if hyper c then ihname else itname)
  | TrigModeButton =>
      if negb shifted
      then match angles c with DEG => "Deg"%string | _ => "Rad"%string end
      else "Hyp"%string
  end.

(** [App.press(button)] of the GUI. *)
Definition press (b : Button) : M unit :=
  gui_error false ;;
  let* c := get in
  let oldshift := shifted (gui c) in
  (if shifted (gui c) && str_truthy (alt_name b) then alternate b else action b) ;;
  let* c := get in
  when (shiftLock (gui c) && Bool.eqb (shifted (gui c)) oldshift) gui_unshift.

(** *** The buttons [makeButtons] builds

    Those whose functions are arithmetic; the buttons on functions of the
    C library (sqrt, pow, log, exp, gamma, the trigonometric ones) have the
    same shape with that function in place of the lambda.  A label that is
    not ASCII is replaced by the name of its key. *)

Module Buttons.

Definition dig (i : nat) : Button :=
  OperationButton (str i) (Lam0 (enterDigit i)) None None.

Definition bs : Button :=
  OperationButton "<BackSpace>" (Lam0 backspace) (Some "AC"%string) (Some (Lam0 clearStack)).
Definition dec : Button := OperationButton "." (Lam0 decimal) None None.
Definition ent : Button := OperationButton "<Return>" (Lam0 enter) None None.

Definition add : Button :=
  OperationButton "+" (Lam2 (pure2 (fun x y => Ok (PrimFloat.add x y)))) None None.
Definition sub : Button :=
  OperationButton "-" (Lam2 (pure2 (fun x y => Ok (PrimFloat.sub y x))))
    (Some "-x"%string) (Some (Lam1 (pure1 (fun x => Ok (PrimFloat.opp x))))).
Definition mul : Button :=
  OperationButton "*" (Lam2 (pure2 (fun x y => Ok (PrimFloat.mul x y)))) None None.
Definition div : Button :=
  OperationButton "/" (Lam2 (pure2 (fun x y => truediv y x)))
    (Some "1/x"%string) (Some (Lam1 (pure1 (fun x => truediv 1%float x)))).

Definition shift : Button := OperationButton "shift" (Lam0 shift) None None.

(** [self.pop] as the alternate of the exchange button: one parameter,
    [silent], which receives the popped X. *)
Definition exch : Button :=
  OperationButton "x<>y" (Lam0 exchange)
    (Some "popX"%string) (Some (Lam1 (fun x => pop (truthy x)))).

Definition pi : Button :=
  OperationButton "Pi" (Lam0 (push Py.pi false))
    (Some "x*Pi"%string) (Some (Lam1 (pure1 (fun x => Ok (PrimFloat.mul x Py.pi))))).

End Buttons.

(** ** Reachable engine states *)

(** The callables a button of either calculator holds. *)
Inductive button_lam : callable -> Prop :=
  | bl_digit (i : nat) : (i < 10)%nat -> button_lam (Lam0 (enterDigit i))
  | bl_backspace : button_lam (Lam0 backspace)
  | bl_clearStack : button_lam (Lam0 clearStack)
  | bl_decimal : button_lam (Lam0 decimal)
  | bl_enter : button_lam (Lam0 enter)
  | bl_shift : button_lam (Lam0 shift)
  | bl_exchange : button_lam (Lam0 exchange)
  | bl_push (v : float) : button_lam (Lam0 (push v false))
  | bl_pop0 : button_lam (Lam0 (pop false ;; ret tt))
  | bl_pop1 : button_lam (Lam1 (fun x => pop (truthy x)))
  | bl_pure1 (g : float -> result float) : button_lam (Lam1 (pure1 g))
  | bl_pure2 (g : float -> float -> result float) : button_lam (Lam2 (pure2 g)).

Inductive layout_button : Button -> Prop :=
  | lb_operation name lam alt altlam :
      button_lam lam ->
      (forall l, altlam = Some l -> button_lam l) ->
      layout_button (OperationButton name lam alt altlam)
  | lb_trig tn tf itn itf hn hf ihn ihf :
      layout_button (TrigButton tn tf itn itf hn hf ihn ihf)
  | lb_mode : layout_button TrigModeButton.

(** What a driver can run against the engine: its methods, and buttons. *)
Inductive engine_op : M unit -> Prop :=
  | op_push v silent : engine_op (push v silent)
  | op_pop silent : engine_op (pop silent ;; ret tt)
  | op_enterDigit i : (i < 10)%nat -> engine_op (enterDigit i)
  | op_finalizeEntry : engine_op finalizeEntry
  | op_enter : engine_op enter
  | op_shift : engine_op shift
  | op_decimal : engine_op decimal
  | op_backspace : engine_op backspace
  | op_exchange : engine_op exchange
  | op_clearStack : engine_op clearStack
  | op_saveMemory pos : engine_op (saveMemory pos)
  | op_loadMemory pos : engine_op (loadMemory pos)
  | op_do lam : button_lam lam -> engine_op (OperationButton_do lam)
  | op_action b : layout_button b -> engine_op (action b)
  | op_alternate b : layout_button b -> engine_op (alternate b)
  | op_press b : layout_button b -> engine_op (press b).

(** The state a computation leaves, whether it returned or raised. *)
Definition exec {A} (m : M A) (c : Calculator) : Calculator := snd (m c).

Inductive reachable : Calculator -> Prop :=
  | reach_init : reachable init
  | reach_step c m : reachable c -> engine_op m -> reachable (exec m c).

(** ** The entry invariant *)

(** The text being typed: digits around at most one point, each part at
    most PRECISION long, and not empty. *)
Definition good_text (text : string) : bool :=
  let '(whole, sep, dec) := partition "."%char text in
  all_digits whole && all_digits dec
  && (String.length whole <=? PRECISION)%nat
  && (String.length dec <=? PRECISION)%nat
  && negb (String.eqb text EmptyString).

(** While a text is being typed it is well formed and register X exists. *)
Definition Inv (c : Calculator) : Prop :=
  match entry c with
  | None => True
  | Some text => good_text text = true /\ stack c <> []
  end.

(** The digit counts of the entry text, whole part and fractional part. *)
Definition digit_counts (text : string) : nat * nat :=
  let '(whole, _, dec) := partition "."%char text in
  (String.length whole, String.length dec).

(** The magnitude test the precision bound is described by:
    [abs(value) >= 10 ** PRECISION]. *)
Definition magnitude_exceeds (value : float) : bool :=
  ge_int (PrimFloat.abs value) (10 ^ Z.of_nat PRECISION).

(** ** What a computation does to the entry buffer *)

(** The invariant holds in the state the computation leaves. *)
Definition preserves {A} (m : M A) : Prop :=
  forall c, Inv c -> Inv (exec m c).

(** Started with no entry pending, the computation leaves none pending. *)
Definition keeps_idle {A} (m : M A) : Prop :=
  forall c, entry c = None -> entry (exec m c) = None.

(** The computation leaves no entry pending. *)
Definition settles {A} (m : M A) : Prop :=
  forall c, Inv c -> entry (exec m c) = None.

(** What [l.pop()] returns in [pop], with the 0 of the empty stack. *)
Definition top (s : list float) : float := default 0%float (last s).

(** The outcomes of a stored function that [do] answers by restoring the
    operands: a caught exception, or a value the precision test rejects. *)
Definition fails (r : result float) : bool :=
  match r with
  | Raise e => caught e
  | Ok v => ge_int v (10 ^ Z.of_nat PRECISION)
  end.

(** The GUI after [drawStack], and after [error()]. *)
Definition drawn (g : App) : App := gui_call_log DrawStack g.
Definition errored (g : App) : App := mkApp true (shifted g) (shiftLock g) (calls g).

(** ** Some reachable states *)

(** After the digit 5 is pressed on a fresh engine: stack [0], text "5". *)
Definition typed_5 : Calculator := exec (enterDigit 5) init.

(** 3, Enter, 5: stack [3; 0], text "5". *)
Definition typed_3_enter_5 : Calculator :=
  exec (enterDigit 5) (exec enter (exec (enterDigit 3) init)).

(** The four calls of the entry example. *)
Definition enter_5_point_2 : M unit :=
  enterDigit 5 ;; decimal ;; enterDigit 2 ;; finalizeEntry.

(** The bank [saveMemory(pos)] leaves when X is x: zero-filled up to pos,
    then slot pos overwritten. *)
Definition saved (m : list float) (pos : Z) (x : float) : list float :=
  <[Z.to_nat (pos - 1) := x]>
    (m ++ replicate (Z.to_nat (pos - Z.of_nat (length m))) 0%float).

(** [getMemory] on the bank alone. *)
Definition read_bank (m : list float) (pos : Z) : result float :=
  if pos <=? Z.of_nat (length m) then getitem m (pos - 1) else Ok 0%float.

(** The state a list of calls leaves, run one after the other. *)
Fixpoint run_all (ms : list (M unit)) (c : Calculator) : Calculator :=
  match ms with
  | [] => c
  | m :: ms' => run_all ms' (exec m c)
  end.

(** 99999999, Enter, 1: stack [99999999; 0], text "1". *)
Definition typed_nines_enter_1 : Calculator :=
  run_all (replicate 8 (enterDigit 9) ++ [enter; enterDigit 1]) init.

(** -100000000 and 10 pushed on a fresh engine, and 100000000 and 10. *)
Definition negative_operands : Calculator :=
  run_all [push (-100000000)%float false; push 10%float false] init.
Definition positive_operands : Calculator :=
  run_all [push 100000000%float false; push 10%float false] init.

(** 200000000 and 1 pushed on a fresh engine. *)
Definition large_Y_operands : Calculator :=
  run_all [push 200000000%float false; push 1%float false] init.

(** push y, push x, press the subtraction button. *)
Definition push_push_subtract (x y : float) : M unit :=
  push y false ;; push x false ;; action Buttons.sub.

(** ** More of the GUI (pyrpn.App, pyrpn.CalcDisplay) *)

(** [App.clickMemory(pos)]: save when shifted, else load; then unshift. *)
Definition clickMemory (pos : Z) : M unit :=
  (let* c := get in
   if shifted (gui c) then saveMemory pos else loadMemory pos) ;;
  gui_unshift.

(** [App.STACK] and [App.MEMORY], the registers and slots drawStack shows. *)
Definition STACK : nat := 4.
Definition MEMORY : nat := 4.

(** What [App.drawStack] reads from the engine: [getRegister(x)] for x in
    [range(STACK)] and [getMemory(x + 1)] for x in [range(MEMORY)]. *)
Definition drawStack_registers (c : Calculator) : list float :=
  map (fun x => getRegister x c) (seq 0 STACK).
Definition drawStack_memory (c : Calculator) : list (result float) :=
  map (fun x => getMemory (Z.of_nat x + 1) c) (seq 0 MEMORY).

(** [s.rjust(n)] and [s.ljust(n)] with blanks, the padding of [%ns] and
    [%-ns]; a longer string is left as it is. *)
Fixpoint blanks (n : nat) : string :=
  match n with
  | O => EmptyString
  | S n' => String " " (blanks n')
  end.
Definition rjust (n : nat) (s : string) : string :=
  (blanks (n - String.length s) ++ s)%string.
Definition ljust (n : nat) (s : string) : string :=
  (s ++ blanks (n - String.length s))%string.

Definition WIDTH : nat := 8.

(** The text [CalcDisplay.entry(value)] shows:
    [">% 8s%1s%-8s" % (whole, sep, decimal)]. *)
Definition CalcDisplay_entry (value : string) : string :=
  let '(whole, sep, decimal) := partition "."%char value in
  (String ">" (rjust WIDTH whole) ++ rjust 1 sep ++ ljust WIDTH decimal)%string.

(** ** The pop button of SimpleCalculator

    [exch = button("x<>y", 'x', lambda: self.exchange(), 'pop',
    lambda: self.pop())]: here the alternate takes no argument. *)
Module SimpleButtons.

Definition exch : Button :=
  OperationButton "x<>y" (Lam0 exchange)
    (Some "pop"%string) (Some (Lam0 (pop false ;; ret tt))).

End SimpleButtons.

(** ** Frames *)

(** The property holds in the state the computation leaves, whenever it
    held in the state it started from. *)
Definition stable (P : Calculator -> Prop) {A} (m : M A) : Prop :=
  forall c, P c -> P (exec m c).

(** The length guard of [enterDigit]: there is room for one more digit in
    the part of the text being typed. *)
Definition accepts_digit (text : string) : bool :=
  let '(whole, sep, dec) := partition "."%char text in
  negb (if String.eqb sep EmptyString
        then (PRECISION <=? String.length whole)%nat
        else (PRECISION <=? String.length dec)%nat).

(** 1, 2 typed on a fresh engine: stack [0], text "12". *)
Definition typed_12 : Calculator :=
  run_all [enterDigit 1; enterDigit 2] init.

(** 5 typed, then saved to position 1: memory [5]. *)
Definition typed_5_saved : Calculator := exec (saveMemory 1) typed_5.

(** The same with shift latched by the shift button. *)
Definition typed_5_shifted : Calculator := exec (press Buttons.shift) typed_5.

(** ** The text being typed and its register *)

(** A whole part with no redundant leading zero: a lone "0", or digits that
    do not start with "0". *)
Definition norm_whole (w : string) : bool :=
  match w with
  | EmptyString => false
  | String a r => negb (Ascii.eqb a "0") || String.eqb r EmptyString
  end.

(** While a text is being typed its whole part is normal and the register
    it will be committed to holds the placeholder 0. *)
Definition Typing (c : Calculator) : Prop :=
  match entry c with
  | None => True
  | Some text =>
      norm_whole (fst (fst (partition "."%char text))) = true /\
      last (stack c) = Some 0%float
  end.

Definition InvTyping (c : Calculator) : Prop := Inv c /\ Typing c.

(** * Properties *)

(** ** Strings *)

Section StringFacts.

Local Open Scope string_scope.

Lemma is_digit_not_point (a : ascii) :
  is_digit a = true -> Ascii.eqb a "."%char = false.
Proof.
  intros Hd. destruct (Ascii.eqb_spec a "."%char) as [-> | ]; [discriminate | reflexivity].
Qed.

Lemma str_digit (i : nat) :
  (i < 10)%nat -> exists ch, str i = String ch EmptyString /\ is_digit ch = true.
Proof.
  intros Hi.
  do 10 (destruct i as [| i]; [eexists; split; reflexivity |]).
  lia.
Qed.

Lemma partition_sep (c : ascii) (s : string) :
  snd (fst (partition c s)) = EmptyString /\ snd (partition c s) = EmptyString /\ fst (fst (partition c s)) = s
  \/ snd (fst (partition c s)) = String c EmptyString.
Proof.
  induction s as [| a r IH]; simpl.
  - left; auto.
  - destruct (Ascii.eqb a c); [right; reflexivity |].
    destruct (partition c r) as [[w sep] d]; simpl in *.
    destruct IH as [(-> & -> & ->) | ->]; [left | right]; auto.
Qed.

Lemma partition_nosep (c : ascii) (s w d : string) :
  partition c s = (w, EmptyString, d) -> w = s /\ d = EmptyString.
Proof.
  intros H. destruct (partition_sep c s) as [(_ & Hd & Hw) | Hs];
    rewrite H in *; simpl in *; [auto | discriminate].
Qed.

Lemma partition_snoc (s : string) (ch : ascii) :
  Ascii.eqb ch "."%char = false ->
  partition "."%char (s ++ String ch EmptyString) =
    match partition "."%char s with
    | (w, EmptyString, d) => (w ++ String ch EmptyString, EmptyString, d)
    | (w, sep, d) => (w, sep, d ++ String ch EmptyString)
    end.
Proof.
  intros Hch. induction s as [| a r IH]; simpl.
  - rewrite Hch. reflexivity.
  - destruct (Ascii.eqb a "."%char); [reflexivity |].
    rewrite IH. destruct (partition "."%char r) as [[w sep] d].
    destruct sep; reflexivity.
Qed.

Lemma partition_no_point (s : string) :
  contains "."%char s = false -> partition "."%char s = (s, EmptyString, EmptyString).
Proof.
  induction s as [| a r IH]; simpl; [reflexivity |].
  intros H. apply orb_false_iff in H as [Ha Hr].
  rewrite Ha, (IH Hr). reflexivity.
Qed.

Lemma partition_add_point (s : string) :
  contains "."%char s = false -> partition "."%char (s ++ ".") = (s, ".", EmptyString).
Proof.
  induction s as [| a r IH]; simpl; [reflexivity |].
  intros H. apply orb_false_iff in H as [Ha Hr].
  rewrite Ha, (IH Hr). reflexivity.
Qed.

Lemma all_digits_app (s t : string) :
  all_digits (s ++ t) = all_digits s && all_digits t.
Proof.
  induction s as [| a r IH]; simpl; [reflexivity |].
  rewrite IH, andb_assoc. reflexivity.
Qed.

Lemma string_length_app (s t : string) :
  String.length (s ++ t) = (String.length s + String.length t)%nat.
Proof. induction s as [| a r IH]; simpl; [reflexivity | now rewrite IH]. Qed.

Lemma all_digits_drop_last (s : string) :
  all_digits s = true -> all_digits (drop_last s) = true.
Proof.
  induction s as [| a r IH]; simpl; [reflexivity |].
  intros H. apply andb_true_iff in H as [Ha Hr].
  destruct r as [| b r']; [reflexivity |].
  change (is_digit a && all_digits (drop_last (String b r')) = true).
  rewrite Ha, (IH Hr). reflexivity.
Qed.

Lemma length_drop_last (s : string) :
  (String.length (drop_last s) <= String.length s)%nat.
Proof.
  induction s as [| a r IH]; simpl; [lia |].
  destruct r as [| b r']; [simpl; lia |].
  change (S (String.length (drop_last (String b r'))) <= S (String.length (String b r')))%nat.
  lia.
Qed.

Lemma partition_drop_last (s : string) :
  partition "."%char (drop_last s) =
    match partition "."%char s with
    | (w, EmptyString, _) => (drop_last w, EmptyString, EmptyString)
    | (w, _, EmptyString) => (w, EmptyString, EmptyString)
    | (w, sep, d) => (w, sep, drop_last d)
    end.
Proof.
  induction s as [| a r IH]; [reflexivity |].
  destruct r as [| b r'].
  - simpl. destruct (Ascii.eqb a "."%char); reflexivity.
  - change (drop_last (String a (String b r'))) with (String a (drop_last (String b r'))).
    remember (String b r') as r eqn:Er.
    simpl. destruct (Ascii.eqb a "."%char) eqn:Ha.
    + subst r. reflexivity.
    + rewrite IH.
      destruct (partition "."%char r) as [[w sep] d] eqn:Ep.
      destruct sep as [| c sep'].
      * apply partition_nosep in Ep as [-> ->]. subst r. reflexivity.
      * destruct d; reflexivity.
Qed.

Lemma good_text_parts (text : string) :
  good_text text = true ->
  exists w sep d,
    partition "."%char text = (w, sep, d) /\
    all_digits w = true /\ all_digits d = true /\
    (String.length w <= PRECISION)%nat /\ (String.length d <= PRECISION)%nat /\
    text <> EmptyString.
Proof.
  unfold good_text. destruct (partition "."%char text) as [[w sep] d].
  intros H. repeat (apply andb_true_iff in H as [H ?]).
  exists w, sep, d. repeat split; auto using Nat.leb_le.
  - now apply Nat.leb_le.
  - now apply Nat.leb_le.
  - intros ->. discriminate.
Qed.

Lemma good_text_intro (text w sep d : string) :
  partition "."%char text = (w, sep, d) ->
  all_digits w = true -> all_digits d = true ->
  (String.length w <= PRECISION)%nat -> (String.length d <= PRECISION)%nat ->
  text <> EmptyString ->
  good_text text = true.
Proof.
  intros E Hw Hd Lw Ld Hne. unfold good_text. rewrite E, Hw, Hd.
  apply Nat.leb_le in Lw, Ld. rewrite Lw, Ld.
  destruct text; [congruence | reflexivity].
Qed.

(** The text finalizeEntry parses is a literal float accepts. *)
Lemma good_text_parse (text : string) :
  good_text text = true -> exists v, NUMTYPE (String "0" text) = Ok v.
Proof.
  intros H. apply good_text_parts in H as (w & sep & d & E & Hw & Hd & _).
  unfold NUMTYPE, float_of_string. simpl. rewrite E. simpl.
  rewrite Hw, Hd. simpl. eexists. reflexivity.
Qed.

Lemma app_not_empty (s : string) (ch : ascii) : s ++ String ch EmptyString <> EmptyString.
Proof. destruct s; discriminate. Qed.

(** A digit accepted by the length guard of enterDigit keeps the text good. *)
Lemma good_text_digit (text : string) (ch : ascii) :
  text = EmptyString \/ good_text text = true ->
  is_digit ch = true ->
  (let '(w, sep, d) := partition "."%char text in
   if String.eqb sep EmptyString then (PRECISION <=? String.length w)%nat
   else (PRECISION <=? String.length d)%nat) = false ->
  good_text (text ++ String ch EmptyString) = true.
Proof.
  intros Ht Hch Hguard.
  assert (Hp := partition_snoc text ch (is_digit_not_point ch Hch)).
  destruct Ht as [-> | Ht]; [simpl; unfold good_text; simpl; rewrite is_digit_not_point by auto;
                               simpl; rewrite Hch; reflexivity |].
  apply good_text_parts in Ht as (w & sep & d & E & Hw & Hd & Lw & Ld & Hne).
  rewrite E in Hp, Hguard.
  destruct sep as [| c sep'].
  - cbn [String.eqb] in Hguard. apply Nat.leb_gt in Hguard.
    eapply good_text_intro; [exact Hp | | | | | apply app_not_empty]; auto.
    + rewrite all_digits_app, Hw. simpl. now rewrite Hch.
    + rewrite string_length_app. simpl. lia.
  - cbn [String.eqb] in Hguard. apply Nat.leb_gt in Hguard.
    eapply good_text_intro; [exact Hp | | | | | apply app_not_empty]; auto.
    + rewrite all_digits_app, Hd. simpl. now rewrite Hch.
    + rewrite string_length_app. simpl. lia.
Qed.

Lemma good_text_single (ch : ascii) : is_digit ch = true -> good_text (String ch EmptyString) = true.
Proof.
  intros Hch. apply (good_text_digit EmptyString ch); auto.
Qed.

(** The point decimal() appends keeps the text good. *)
Lemma good_text_point (text : string) :
  good_text text = true -> contains "."%char text = false ->
  good_text (text ++ ".") = true.
Proof.
  intros Ht Hc.
  apply good_text_parts in Ht as (w & sep & d & E & Hw & Hd & Lw & Ld & Hne).
  rewrite (partition_no_point text Hc) in E. inversion E; subst.
  eapply good_text_intro; [apply partition_add_point; exact Hc | | | | | apply app_not_empty]; auto.
Qed.

(** The text backspace() leaves is good unless it is empty. *)
Lemma good_text_drop_last (text : string) :
  good_text text = true -> drop_last text <> EmptyString ->
  good_text (drop_last text) = true.
Proof.
  intros Ht Hne'.
  apply good_text_parts in Ht as (w & sep & d & E & Hw & Hd & Lw & Ld & Hne).
  assert (Hp := partition_drop_last text). rewrite E in Hp.
  assert (Lw' := length_drop_last w). assert (Ld' := length_drop_last d).
  destruct sep as [| c sep'].
  - eapply good_text_intro; [exact Hp | | | | | exact Hne'];
      auto using all_digits_drop_last; try (unfold PRECISION in *; simpl; lia).
  - destruct d as [| b d'].
    + eapply good_text_intro; [exact Hp | | | | | exact Hne'];
        auto; unfold PRECISION; simpl; lia.
    + eapply good_text_intro; [exact Hp | | | | | exact Hne'];
        auto using all_digits_drop_last; try (unfold PRECISION in *; simpl in *; lia).
Qed.

End StringFacts.

(** ** Python lists *)

Section ListFacts.

Context {A : Type}.

Lemma list_pop_nil : list_pop (@nil A) = None.
Proof. reflexivity. Qed.

Lemma list_pop_snoc (l : list A) (x : A) : list_pop (l ++ [x]) = Some (x, l).
Proof. unfold list_pop. now rewrite last_snoc, removelast_last. Qed.

Lemma setitem_last (l : list A) (x v : A) : setitem (l ++ [x]) (-1) v = Ok (l ++ [v]).
Proof.
  unfold setitem. rewrite length_app. simpl length.
  replace (-1 <? 0) with true by reflexivity.
  replace (-1 + Z.of_nat (length l + 1)) with (Z.of_nat (length l)) by lia.
  replace (0 <=? Z.of_nat (length l)) with true by (symmetry; apply Z.leb_le; lia).
  replace (Z.of_nat (length l) <? Z.of_nat (length l + 1)) with true
    by (symmetry; apply Z.ltb_lt; lia).
  simpl. rewrite Nat2Z.id.
  replace (length l) with (length l + 0)%nat at 1 by lia.
  rewrite insert_app_r. reflexivity.
Qed.

Lemma snoc_cases (l : list A) : l = [] \/ exists l' x, l = l' ++ [x].
Proof.
  destruct l as [| a l] using rev_ind; [left; reflexivity | right; eauto].
Qed.

End ListFacts.

(** ** Running computations *)

Lemma exec_bind {A B} (m : M A) (k : A -> M B) (c : Calculator) :
  exec (bind m k) c =
    match m c with
    | (Ok a, c') => exec (k a) c'
    | (Raise _, c') => c'
    end.
Proof. unfold exec, bind. destruct (m c) as [[a | e] c']; reflexivity. Qed.

Lemma exec_try {A} (body handler : M A) (c : Calculator) :
  exec (try_except body handler) c =
    match body c with
    | (Ok _, c') => c'
    | (Raise e, c') => if caught e then exec handler c' else c'
    end.
Proof.
  unfold exec, try_except. destruct (body c) as [[a | e] c']; [reflexivity |].
  destruct (caught e); reflexivity.
Qed.

(** *** Computations that leave an idle buffer idle *)

Lemma keeps_idle_ret {A} (a : A) : keeps_idle (ret a).
Proof. intros c H. exact H. Qed.

Lemma keeps_idle_raise {A} (e : exn) : keeps_idle (@raise A e).
Proof. intros c H. exact H. Qed.

Lemma keeps_idle_lift {A} (r : result A) : keeps_idle (lift r).
Proof. intros c H. exact H. Qed.

Lemma keeps_idle_get : keeps_idle get.
Proof. intros c H. exact H. Qed.

Lemma keeps_idle_modify (f : Calculator -> Calculator) :
  (forall c, entry c = None -> entry (f c) = None) -> keeps_idle (modify f).
Proof. intros Hf c H. apply Hf, H. Qed.

Lemma keeps_idle_bind {A B} (m : M A) (k : A -> M B) :
  keeps_idle m -> (forall a, keeps_idle (k a)) -> keeps_idle (bind m k).
Proof.
  intros Hm Hk c H. rewrite exec_bind.
  specialize (Hm c H). unfold exec in Hm.
  destruct (m c) as [[a | e] c']; simpl in Hm; [apply Hk, Hm | exact Hm].
Qed.

Lemma keeps_idle_try {A} (body handler : M A) :
  keeps_idle body -> keeps_idle handler -> keeps_idle (try_except body handler).
Proof.
  intros Hb Hh c H. rewrite exec_try.
  specialize (Hb c H). unfold exec in Hb.
  destruct (body c) as [[a | e] c']; simpl in Hb; [exact Hb |].
  destruct (caught e); [apply Hh, Hb | exact Hb].
Qed.

Lemma keeps_idle_when (b : bool) (m : M unit) : keeps_idle m -> keeps_idle (when b m).
Proof. intros Hm. destruct b; [exact Hm | apply keeps_idle_ret]. Qed.

(** Each step of a computation built from the combinators. *)
Ltac idle_step :=
  match goal with
  | |- keeps_idle (bind _ _) => apply keeps_idle_bind; [| intro]
  | |- keeps_idle (try_except _ _) => apply keeps_idle_try
  | |- keeps_idle (when _ _) => apply keeps_idle_when
  | |- keeps_idle (ret _) => apply keeps_idle_ret
  | |- keeps_idle (raise _) => apply keeps_idle_raise
  | |- keeps_idle (lift _) => apply keeps_idle_lift
  | |- keeps_idle get => apply keeps_idle_get
  | |- keeps_idle (modify _) => apply keeps_idle_modify; intros [] ?; assumption || reflexivity
  | |- keeps_idle (match ?x with _ => _ end) => destruct x
  | |- keeps_idle (if ?x then _ else _) => destruct x
  end.

Lemma keeps_idle_gui_drawStack : keeps_idle gui_drawStack.
Proof. unfold gui_drawStack. idle_step. Qed.

Lemma keeps_idle_gui_error (b : bool) : keeps_idle (gui_error b).
Proof. unfold gui_error. idle_step. Qed.

Lemma keeps_idle_gui_updateButtons : keeps_idle gui_updateButtons.
Proof. unfold gui_updateButtons. idle_step. Qed.

Lemma keeps_idle_finalizeEntry : keeps_idle finalizeEntry.
Proof. intros c H. unfold finalizeEntry, exec, bind, get. simpl. rewrite H. exact H. Qed.

Create HintDb engine.

#[local] Hint Resolve keeps_idle_gui_drawStack keeps_idle_gui_error
  keeps_idle_gui_updateButtons keeps_idle_finalizeEntry : engine.

Ltac idle := repeat first [idle_step | solve [auto with engine]].

Lemma keeps_idle_push (v : float) (silent : bool) : keeps_idle (push v silent).
Proof. unfold push. idle. Qed.

Lemma keeps_idle_pop (silent : bool) : keeps_idle (pop silent).
Proof. unfold pop. idle. Qed.

Lemma keeps_idle_check_precision (v : float) : keeps_idle (check_precision v).
Proof. unfold check_precision. idle. Qed.

#[local] Hint Resolve keeps_idle_push keeps_idle_pop keeps_idle_check_precision : engine.

(** *** The primitive operations on explicit states *)

Lemma not_empty_match {A} (l : list A) (x : A) :
  match l ++ [x] with [] => true | _ => false end = false.
Proof. destruct l; reflexivity. Qed.

Lemma finalizeEntry_idle (c : Calculator) :
  entry c = None -> finalizeEntry c = (Ok tt, c).
Proof. intros H. unfold finalizeEntry, bind, get. simpl. rewrite H. reflexivity. Qed.

Lemma finalizeEntry_editing text s p m a h g v :
  text <> EmptyString ->
  NUMTYPE (String "0" text) = Ok v ->
  finalizeEntry (mkCalculator (Some text) (s ++ [p]) m a h g) =
    (Ok tt, mkCalculator None (s ++ [v]) m a h (gui_call_log DrawStack g)).
Proof.
  intros Hne Hv. destruct text as [| ch r]; [congruence |].
  unfold finalizeEntry, bind, get. cbn [entry stack fst snd].
  rewrite not_empty_match. cbn [when ret lift].
  rewrite Hv. cbn [stack set_stack].
  rewrite setitem_last. reflexivity.
Qed.

Lemma push_idle v silent s m a h g :
  push v silent (mkCalculator None s m a h g) =
    (Ok tt, mkCalculator None (s ++ [v]) m a h
              (if silent then g else gui_call_log DrawStack g)).
Proof. destruct silent; reflexivity. Qed.

Lemma pop_idle_snoc silent s x m a h g :
  pop silent (mkCalculator None (s ++ [x]) m a h g) =
    (Ok x, mkCalculator None s m a h
             (if silent then g else gui_call_log DrawStack g)).
Proof.
  unfold pop, bind. rewrite finalizeEntry_idle by reflexivity.
  cbn [get stack]. rewrite list_pop_snoc. destruct silent; reflexivity.
Qed.

Lemma pop_idle_nil silent m a h g :
  pop silent (mkCalculator None [] m a h g) =
    (Ok 0%float, mkCalculator None [] m a h
             (if silent then g else gui_call_log DrawStack g)).
Proof. destruct silent; reflexivity. Qed.

(** Under the invariant finalizeEntry returns, and the state it leaves is
    the one it started from with the parsed text in register X. *)
Lemma finalizeEntry_Inv (c : Calculator) :
  Inv c ->
  finalizeEntry c = (Ok tt, exec finalizeEntry c) /\
  entry (exec finalizeEntry c) = None /\
  memory (exec finalizeEntry c) = memory c /\
  angles (exec finalizeEntry c) = angles c /\
  hyper (exec finalizeEntry c) = hyper c /\
  err (gui (exec finalizeEntry c)) = err (gui c) /\
  match entry c with
  | None => exec finalizeEntry c = c
  | Some text =>
      exists v s p, NUMTYPE (String "0" text) = Ok v /\
        stack c = s ++ [p] /\ stack (exec finalizeEntry c) = s ++ [v]
  end.
Proof.
  destruct c as [[text |] s m a h g]; unfold Inv; cbn [entry stack].
  - intros [Hg Hs].
    destruct (good_text_parse text Hg) as [v Hv].
    destruct (snoc_cases s) as [-> | (s' & p & ->)]; [congruence |].
    assert (Hne : text <> EmptyString) by (intros ->; discriminate).
    unfold exec. rewrite (finalizeEntry_editing text s' p m a h g v Hne Hv).
    cbn. repeat split. exists v, s', p. auto.
  - intros _. unfold exec. rewrite finalizeEntry_idle by reflexivity.
    cbn. repeat split.
Qed.

(** *** Computations that keep the entry invariant *)

Lemma settles_preserves {A} (m : M A) : settles m -> preserves m.
Proof. intros H c Hc. unfold Inv. rewrite (H c Hc). exact I. Qed.

Lemma settles_finalizeEntry : settles finalizeEntry.
Proof. intros c H. apply (finalizeEntry_Inv c H). Qed.

Lemma settles_bind {A B} (m : M A) (k : A -> M B) :
  settles m -> (forall a, keeps_idle (k a)) -> settles (bind m k).
Proof.
  intros Hm Hk c H. rewrite exec_bind.
  specialize (Hm c H). unfold exec in Hm.
  destruct (m c) as [[a | e] c']; simpl in Hm; [apply Hk, Hm | exact Hm].
Qed.

Lemma preserves_bind {A B} (m : M A) (k : A -> M B) :
  preserves m -> (forall a, preserves (k a)) -> preserves (bind m k).
Proof.
  intros Hm Hk c H. rewrite exec_bind.
  specialize (Hm c H). unfold exec in Hm.
  destruct (m c) as [[a | e] c']; simpl in Hm; [apply Hk, Hm | exact Hm].
Qed.

Lemma preserves_same {A} (m : M A) :
  (forall c, entry (exec m c) = entry c /\ stack (exec m c) = stack c) ->
  preserves m.
Proof. intros Hm c H. unfold Inv in *. destruct (Hm c) as [-> ->]. exact H. Qed.

Lemma preserves_ret {A} (a : A) : preserves (ret a).
Proof. apply preserves_same. intros c. split; reflexivity. Qed.

Lemma preserves_get : preserves get.
Proof. apply preserves_same. intros c. split; reflexivity. Qed.

Lemma preserves_lift {A} (r : result A) : preserves (lift r).
Proof. apply preserves_same. intros c. split; reflexivity. Qed.

Lemma preserves_gui_error (b : bool) : preserves (gui_error b).
Proof. apply preserves_same. intros c. split; reflexivity. Qed.

Lemma preserves_gui_unshift : preserves gui_unshift.
Proof. apply preserves_same. intros c. split; reflexivity. Qed.

Lemma preserves_shift : preserves shift.
Proof.
  apply preserves_same. intros [e s m a h [er [|] sl cl]]; split; reflexivity.
Qed.

Lemma preserves_TrigModeButton_action : preserves TrigModeButton_action.
Proof. apply preserves_same. intros c. split; reflexivity. Qed.

Lemma preserves_TrigModeButton_alternate : preserves TrigModeButton_alternate.
Proof. apply preserves_same. intros c. split; reflexivity. Qed.

Lemma settles_push v silent : settles (push v silent).
Proof. unfold push. apply settles_bind; [apply settles_finalizeEntry | intro; idle]. Qed.

Lemma settles_pop silent : settles (pop silent).
Proof. unfold pop. apply settles_bind; [apply settles_finalizeEntry | intro; idle]. Qed.

Lemma settles_exchange : settles exchange.
Proof. unfold exchange. apply settles_bind; [apply settles_finalizeEntry | intro; idle]. Qed.

Lemma settles_saveMemory pos : settles (saveMemory pos).
Proof.
  unfold saveMemory. apply settles_bind; [apply settles_finalizeEntry | intro; idle].
Qed.

Lemma settles_clearStack : settles clearStack.
Proof. intros c _. reflexivity. Qed.

Lemma settles_do_Lam1 (f : float -> M float) :
  (forall x, keeps_idle (f x)) -> settles (OperationButton_do (Lam1 f)).
Proof.
  intros Hf. unfold OperationButton_do.
  apply settles_bind; [apply settles_finalizeEntry | intro; idle].
Qed.

Lemma settles_do_Lam2 (f : float -> float -> M float) :
  (forall x y, keeps_idle (f x y)) -> settles (OperationButton_do (Lam2 f)).
Proof.
  intros Hf. unfold OperationButton_do.
  apply settles_bind; [apply settles_finalizeEntry | intro; idle].
Qed.

Lemma settles_TrigButton_action tf hf : settles (TrigButton_action tf hf).
Proof. unfold TrigButton_action. apply settles_bind; [apply settles_pop | intro; idle]. Qed.

Lemma settles_TrigButton_alternate itf ihf : settles (TrigButton_alternate itf ihf).
Proof. unfold TrigButton_alternate. apply settles_bind; [apply settles_pop | intro; idle]. Qed.

Lemma snoc_not_nil {A} (l : list A) (x : A) : l ++ [x] <> [].
Proof. destruct l; discriminate. Qed.

Lemma preserves_enterDigit (i : nat) : (i < 10)%nat -> preserves (enterDigit i).
Proof.
  intros Hi. destruct (str_digit i Hi) as (ch & Hstr & Hch).
  intros [[text |] s m a h g]; unfold Inv; cbn [entry stack].
  - intros [Hg Hs].
    unfold exec, enterDigit, bind, get. cbn [entry ret fst snd].
    assert (Hd := good_text_digit text ch (or_intror Hg) Hch).
    destruct (partition "."%char text) as [[w sep] d].
    match goal with |- context [if ?g then ret tt else _] => destruct g end.
    + cbn. auto.
    + cbn. split; [| exact Hs]. rewrite Hstr.
      destruct (String.eqb text "0"); [apply good_text_single, Hch | apply Hd; reflexivity].
  - intros _.
    unfold exec, enterDigit, bind, get. cbn [entry ret fst snd].
    rewrite push_idle. cbn. rewrite Hstr.
    split; [apply good_text_single, Hch | apply snoc_not_nil].
Qed.

Lemma preserves_decimal : preserves decimal.
Proof.
  intros [[text |] s m a h g]; unfold Inv; cbn [entry stack].
  - intros [Hg Hs].
    assert (Hne : text <> EmptyString) by (intros ->; discriminate).
    destruct text as [| c0 r]; [congruence |].
    unfold exec, decimal, bind, get. cbn [entry ret fst snd].
    destruct (contains "."%char (String c0 r)) eqn:Hc.
    + cbn. auto.
    + cbn. split; [| exact Hs]. apply (good_text_point _ Hg Hc).
  - intros _.
    unfold exec, decimal, bind, get. cbn [entry ret fst snd].
    rewrite push_idle. cbn. split; [reflexivity | apply snoc_not_nil].
Qed.

Lemma preserves_backspace : preserves backspace.
Proof.
  intros [[text |] s m a h g]; unfold Inv; cbn [entry stack].
  - intros [Hg Hs].
    assert (Hne : text <> EmptyString) by (intros ->; discriminate).
    destruct text as [| c0 r]; [congruence |].
    assert (Hd := good_text_drop_last _ Hg).
    unfold exec, backspace, bind, get, modify, ret.
    cbn [entry fst snd set_entry stack memory angles hyper gui].
    match goal with |- context [if ?b then _ else _] => destruct b eqn:Eb end.
    + unfold set_entry. cbn [entry stack memory angles hyper gui].
      pose proof (keeps_idle_pop false (mkCalculator None s m a h g) eq_refl) as Hk.
      unfold exec in Hk.
      destruct (pop false (mkCalculator None s m a h g)) as [[v | e] c'];
        cbn [snd] in Hk |- *; rewrite Hk; exact I.
    + cbn. split; [| exact Hs]. apply Hd. intros E. rewrite E in Eb. discriminate.
  - intros _. exact I.
Qed.

Lemma preserves_enter : preserves enter.
Proof.
  unfold enter. apply preserves_bind; [apply preserves_get | intros c].
  destruct (entry c) as [[| c0 r] |].
  - destruct (last (stack c)); apply settles_preserves, settles_push.
  - apply settles_preserves, settles_finalizeEntry.
  - destruct (last (stack c)); apply settles_preserves, settles_push.
Qed.

Lemma preserves_loadMemory pos : preserves (loadMemory pos).
Proof.
  unfold loadMemory. apply preserves_bind; [apply preserves_get | intros c].
  apply preserves_bind; [apply preserves_lift | intros v].
  apply settles_preserves, settles_push.
Qed.

Lemma preserves_button_lam (lam : callable) :
  button_lam lam -> preserves (OperationButton_do lam).
Proof.
  intros [i Hi | | | | | | | v | | | g | g]; cbn [OperationButton_do].
  - apply preserves_enterDigit, Hi.
  - apply preserves_backspace.
  - apply settles_preserves, settles_clearStack.
  - apply preserves_decimal.
  - apply preserves_enter.
  - apply preserves_shift.
  - apply settles_preserves, settles_exchange.
  - apply settles_preserves, settles_push.
  - apply settles_preserves, settles_bind; [apply settles_pop | intro; idle].
  - apply settles_preserves, settles_do_Lam1. intro. apply keeps_idle_pop.
  - apply settles_preserves, settles_do_Lam1. intro. apply keeps_idle_lift.
  - apply settles_preserves, settles_do_Lam2. intros. apply keeps_idle_lift.
Qed.

Lemma preserves_action (b : Button) : layout_button b -> preserves (action b).
Proof.
  intros [name lam alt altlam Hl Ha | tn tf itn itf hn hf ihn ihf |]; cbn [action].
  - apply preserves_button_lam, Hl.
  - apply settles_preserves, settles_TrigButton_action.
  - apply preserves_TrigModeButton_action.
Qed.

Lemma preserves_alternate (b : Button) : layout_button b -> preserves (alternate b).
Proof.
  intros [name lam alt altlam Hl Ha | tn tf itn itf hn hf ihn ihf |]; cbn [alternate].
  - destruct altlam as [l |]; [apply preserves_button_lam, Ha; reflexivity | apply preserves_ret].
  - apply settles_preserves, settles_TrigButton_alternate.
  - apply preserves_TrigModeButton_alternate.
Qed.

Lemma preserves_press (b : Button) : layout_button b -> preserves (press b).
Proof.
  intros Hb. unfold press.
  apply preserves_bind; [apply preserves_gui_error | intros _].
  apply preserves_bind; [apply preserves_get | intros c].
  apply preserves_bind.
  - destruct (shifted (gui c) && str_truthy (alt_name b));
      [apply preserves_alternate | apply preserves_action]; exact Hb.
  - intros _. apply preserves_bind; [apply preserves_get | intros c'].
    destruct (shiftLock (gui c') && Bool.eqb (shifted (gui c')) (shifted (gui c)));
      [apply preserves_gui_unshift | apply preserves_ret].
Qed.

Lemma preserves_engine_op (m : M unit) : engine_op m -> preserves m.
Proof.
  intros [v silent | silent | i Hi | | | | | | | | pos | pos | lam Hl | b Hb | b Hb | b Hb].
  - apply settles_preserves, settles_push.
  - apply settles_preserves, settles_bind; [apply settles_pop | intro; idle].
  - apply preserves_enterDigit, Hi.
  - apply settles_preserves, settles_finalizeEntry.
  - apply preserves_enter.
  - apply preserves_shift.
  - apply preserves_decimal.
  - apply preserves_backspace.
  - apply settles_preserves, settles_exchange.
  - apply settles_preserves, settles_clearStack.
  - apply settles_preserves, settles_saveMemory.
  - apply preserves_loadMemory.
  - apply preserves_button_lam, Hl.
  - apply preserves_action, Hb.
  - apply preserves_alternate, Hb.
  - apply preserves_press, Hb.
Qed.

(** Every reachable state satisfies the entry invariant. *)
Lemma reachable_Inv (c : Calculator) : reachable c -> Inv c.
Proof.
  induction 1 as [| c m Hc IH Hm]; [exact I | apply (preserves_engine_op m Hm c IH)].
Qed.

(** ** Registers *)

Lemma getRegister_rev (i : nat) (c : Calculator) :
  getRegister i c = nth i (rev (stack c)) 0%float.
Proof.
  unfold getRegister. destruct (Nat.ltb_spec i (length (stack c))) as [Hlt | Hge].
  - rewrite rev_nth by exact Hlt. f_equal. lia.
  - symmetry. apply nth_overflow. rewrite length_rev. exact Hge.
Qed.

Lemma top_rev (s : list float) : top s = nth 0 (rev s) 0%float.
Proof.
  unfold top. destruct (snoc_cases s) as [-> | (s' & x & ->)]; [reflexivity |].
  now rewrite last_snoc, rev_unit.
Qed.

Lemma rev_removelast (s : list float) : rev (removelast s) = tail (rev s).
Proof.
  destruct (snoc_cases s) as [-> | (s' & x & ->)]; [reflexivity |].
  now rewrite removelast_last, rev_unit.
Qed.

(** Popping one register and pushing it back leaves every read as it was. *)
Lemma restore_one (s : list float) (i : nat) :
  nth i (rev (removelast s ++ [top s])) 0%float = nth i (rev s) 0%float.
Proof.
  rewrite rev_unit, top_rev, rev_removelast.
  destruct (rev s) as [| a l]; [destruct i as [| [| i]]; reflexivity |].
  destruct i; reflexivity.
Qed.

(** Popping X then Y and pushing Y then X leaves every read as it was. *)
Lemma restore_two (s : list float) (i : nat) :
  nth i (rev (removelast (removelast s) ++ [top (removelast s)] ++ [top s])) 0%float
  = nth i (rev s) 0%float.
Proof.
  rewrite app_assoc, !rev_unit, !top_rev, !rev_removelast.
  destruct (rev s) as [| a [| b l]]; destruct i as [| [| i]]; try reflexivity.
  - destruct i; reflexivity.
  - destruct i; reflexivity.
Qed.

(** Popping X then Y and pushing X then Y exchanges the two reads. *)
Lemma exchange_two (s : list float) (i : nat) :
  nth i (rev (removelast (removelast s) ++ [top s] ++ [top (removelast s)])) 0%float
  = match i with
    | O => nth 1 (rev s) 0%float
    | S O => nth 0 (rev s) 0%float
    | _ => nth i (rev s) 0%float
    end.
Proof.
  rewrite app_assoc, !rev_unit, !top_rev, !rev_removelast.
  destruct (rev s) as [| a [| b l]]; destruct i as [| [| i]]; try reflexivity;
    destruct i; reflexivity.
Qed.

(** ** The operations on a state with no entry pending *)

Lemma pop_idle silent s m a h g :
  pop silent (mkCalculator None s m a h g) =
    (Ok (top s), mkCalculator None (removelast s) m a h
                   (if silent then g else drawn g)).
Proof.
  destruct (snoc_cases s) as [-> | (s' & x & ->)].
  - apply pop_idle_nil.
  - rewrite pop_idle_snoc, removelast_last. unfold top. now rewrite last_snoc.
Qed.

Lemma exchange_idle s m a h g :
  exchange (mkCalculator None s m a h g) =
    (Ok tt, mkCalculator None
              (removelast (removelast s) ++ [top s] ++ [top (removelast s)])
              m a h (drawn g)).
Proof.
  unfold exchange, bind. rewrite finalizeEntry_idle by reflexivity.
  rewrite !pop_idle, !push_idle. rewrite <- app_assoc. reflexivity.
Qed.

Lemma do_Lam1_idle (f : float -> result float) s m a h g :
  OperationButton_do (Lam1 (pure1 f)) (mkCalculator None s m a h g) =
    match f (top s) with
    | Ok v =>
        if fails (Ok v)
        then (Ok tt, mkCalculator None (removelast s ++ [top s]) m a h (errored (drawn g)))
        else (Ok tt, mkCalculator None (removelast s ++ [v]) m a h (drawn g))
    | Raise e =>
        if caught e
        then (Ok tt, mkCalculator None (removelast s ++ [top s]) m a h (errored (drawn g)))
        else (Raise e, mkCalculator None (removelast s) m a h g)
    end.
Proof.
  unfold OperationButton_do, bind. rewrite finalizeEntry_idle by reflexivity.
  rewrite pop_idle. unfold try_except, bind, pure1, lift, check_precision, fails.
  destruct (f (top s)) as [v | e].
  - destruct (ge_int v (10 ^ Z.of_nat PRECISION)).
    + cbn [raise caught]. rewrite push_idle. reflexivity.
    + cbn [ret]. rewrite push_idle. reflexivity.
  - destruct (caught e); [rewrite push_idle |]; reflexivity.
Qed.

Lemma do_Lam2_idle (f : float -> float -> result float) s m a h g :
  OperationButton_do (Lam2 (pure2 f)) (mkCalculator None s m a h g) =
    let x := top s in
    let y := top (removelast s) in
    let rest := removelast (removelast s) in
    match f x y with
    | Ok v =>
        if fails (Ok v)
        then (Ok tt, mkCalculator None (rest ++ [y] ++ [x]) m a h (errored (drawn g)))
        else (Ok tt, mkCalculator None (rest ++ [v]) m a h (drawn g))
    | Raise e =>
        if caught e
        then (Ok tt, mkCalculator None (rest ++ [y] ++ [x]) m a h (errored (drawn g)))
        else (Raise e, mkCalculator None rest m a h g)
    end.
Proof.
  unfold OperationButton_do, bind. rewrite finalizeEntry_idle by reflexivity.
  rewrite !pop_idle. unfold try_except, bind, pure2, lift, check_precision, fails.
  cbv zeta.
  destruct (f (top s) (top (removelast s))) as [v | e].
  - destruct (ge_int v (10 ^ Z.of_nat PRECISION)).
    + cbn [raise caught]. rewrite !push_idle. rewrite <- app_assoc. reflexivity.
    + cbn [ret]. rewrite push_idle. reflexivity.
  - destruct (caught e); [rewrite !push_idle; rewrite <- app_assoc |]; reflexivity.
Qed.

(** ** Operations that finalize the entry first *)

(** A computation that starts by finalizing the entry runs as it does from
    the state finalizeEntry leaves. *)
Lemma after_finalize {A} (k : M A) (c : Calculator) :
  Inv c ->
  (finalizeEntry ;; k) c = (finalizeEntry ;; k) (exec finalizeEntry c).
Proof.
  intros H. destruct (finalizeEntry_Inv c H) as (E & Hidle & _).
  unfold bind. rewrite E. now rewrite (finalizeEntry_idle _ Hidle).
Qed.

(** The state finalizeEntry leaves has no entry pending. *)
Lemma finalized_idle (c : Calculator) :
  Inv c ->
  exists s m a h g, exec finalizeEntry c = mkCalculator None s m a h g.
Proof.
  intros H. destruct (finalizeEntry_Inv c H) as (_ & Hidle & _).
  destruct (exec finalizeEntry c) as [e s m a h g]. cbn in Hidle. subst e. eauto 6.
Qed.

(** ** The example states are reachable *)

Lemma reachable_typed_5 : reachable typed_5.
Proof. apply reach_step; [apply reach_init | apply op_enterDigit; lia]. Qed.

Lemma reachable_typed_3_enter_5 : reachable typed_3_enter_5.
Proof.
  repeat (apply reach_step; [| first [apply op_enterDigit; lia | apply op_enter]]).
  apply reach_init.
Qed.

(** ** The memory bank *)

Lemma setitem_ok {A} (l : list A) (i : Z) (v : A) :
  0 <= i < Z.of_nat (length l) -> setitem l i v = Ok (<[Z.to_nat i := v]> l).
Proof.
  intros [H0 H1]. unfold setitem.
  destruct (Z.ltb_spec i 0) as [? | _]; [lia |].
  destruct (Z.leb_spec 0 i) as [_ | ?]; [| lia].
  destruct (Z.ltb_spec i (Z.of_nat (length l))) as [_ | ?]; [| lia].
  reflexivity.
Qed.

Lemma getitem_ok {A} (l : list A) (i : Z) (v : A) :
  0 <= i -> l !! Z.to_nat i = Some v -> getitem l i = Ok v.
Proof.
  intros H0 Hv. unfold getitem.
  assert (Hl := lookup_lt_Some _ _ _ Hv).
  destruct (Z.ltb_spec i 0) as [? | _]; [lia |].
  destruct (Z.leb_spec 0 i) as [_ | ?]; [| lia].
  destruct (Z.ltb_spec i (Z.of_nat (length l))) as [_ | ?]; [| lia].
  cbn. now rewrite Hv.
Qed.

Lemma getMemory_read_bank (pos : Z) (c : Calculator) :
  getMemory pos c = read_bank (memory c) pos.
Proof. reflexivity. Qed.

Lemma length_saved (m : list float) (pos : Z) (x : float) :
  Z.of_nat (length (saved m pos x)) = Z.max (Z.of_nat (length m)) pos.
Proof. unfold saved. rewrite length_insert, length_app, length_replicate. lia. Qed.

(** The slot written reads the value written. *)
Lemma read_saved_same (m : list float) (pos : Z) (x : float) :
  1 <= pos -> read_bank (saved m pos x) pos = Ok x.
Proof.
  intros Hp. unfold read_bank.
  assert (Hl := length_saved m pos x).
  destruct (Z.leb_spec pos (Z.of_nat (length (saved m pos x)))) as [_ | ?]; [| lia].
  apply getitem_ok; [lia |]. unfold saved in *.
  apply list_lookup_insert_eq. rewrite length_insert in Hl. lia.
Qed.

(** A slot that was set, other than the one written, reads as before. *)
Lemma read_saved_other (m : list float) (pos j : Z) (x : float) :
  1 <= pos -> 1 <= j <= Z.of_nat (length m) -> j <> pos ->
  read_bank (saved m pos x) j = read_bank m j.
Proof.
  intros Hp Hj Hne. unfold read_bank.
  assert (Hl := length_saved m pos x).
  destruct (Z.leb_spec j (Z.of_nat (length (saved m pos x)))) as [_ | ?]; [| lia].
  destruct (Z.leb_spec j (Z.of_nat (length m))) as [_ | ?]; [| lia].
  destruct (lookup_lt_is_Some_2 m (Z.to_nat (j - 1))) as [v Hv]; [lia |].
  rewrite (getitem_ok m (j - 1) v) by (lia || exact Hv).
  apply getitem_ok; [lia |]. unfold saved.
  rewrite list_lookup_insert_ne by lia.
  rewrite lookup_app_l by lia. exact Hv.
Qed.

(** A slot in the gap between the old length and the one written reads 0. *)
Lemma read_saved_gap (m : list float) (pos j : Z) (x : float) :
  Z.of_nat (length m) < j < pos -> read_bank (saved m pos x) j = Ok 0%float.
Proof.
  intros Hj. unfold read_bank.
  assert (Hl := length_saved m pos x).
  destruct (Z.leb_spec j (Z.of_nat (length (saved m pos x)))) as [_ | ?]; [| lia].
  apply getitem_ok; [lia |]. unfold saved.
  rewrite list_lookup_insert_ne by lia.
  rewrite lookup_app_r by lia.
  apply lookup_replicate_2. lia.
Qed.

(** A position past the end of the bank reads 0. *)
Lemma read_bank_beyond (m : list float) (q : Z) :
  Z.of_nat (length m) < q -> read_bank m q = Ok 0%float.
Proof.
  intros Hq. unfold read_bank.
  destruct (Z.leb_spec q (Z.of_nat (length m))) as [? | _]; [lia | reflexivity].
Qed.

Lemma saveMemory_idle (pos : Z) s m a h g :
  1 <= pos ->
  saveMemory pos (mkCalculator None s m a h g) =
    (Ok tt, mkCalculator None s (saved m pos (top s)) a h (drawn g)).
Proof.
  intros Hp. unfold saveMemory, bind. rewrite finalizeEntry_idle by reflexivity.
  cbn [get memory].
  assert (Hx : forall m', getRegister 0 (mkCalculator None s m' a h g) = top s)
    by (intros m'; now rewrite getRegister_rev, top_rev).
  destruct (Z.ltb_spec (Z.of_nat (length m)) pos) as [Hlt | Hge].
  - cbn [when modify set_memory memory entry stack angles hyper gui lift].
    rewrite setitem_ok by (rewrite length_app, length_replicate; lia).
    unfold set_memory. cbn [entry stack memory angles hyper gui].
    rewrite Hx. reflexivity.
  - cbn [when ret memory lift].
    rewrite setitem_ok by lia. rewrite Hx. unfold saved.
    unfold set_memory. cbn [entry stack memory angles hyper gui].
    replace (Z.to_nat (pos - Z.of_nat (length m))) with 0%nat by lia.
    cbn [replicate]. rewrite app_nil_r. reflexivity.
Qed.

Lemma loadMemory_idle (pos : Z) (v : float) s m a h g :
  read_bank m pos = Ok v ->
  loadMemory pos (mkCalculator None s m a h g) =
    (Ok tt, mkCalculator None (s ++ [v]) m a h (drawn g)).
Proof.
  intros Hv. unfold loadMemory, bind. cbn [get].
  rewrite getMemory_read_bank. cbn [memory lift]. rewrite Hv.
  now rewrite push_idle.
Qed.

(** saveMemory under the invariant: what it returns and the state it leaves,
    in terms of the state finalizeEntry leaves. *)
Lemma saveMemory_Inv (pos : Z) (c : Calculator) :
  Inv c -> 1 <= pos ->
  exists s a h g g',
    exec finalizeEntry c = mkCalculator None s (memory c) a h g /\
    saveMemory pos c =
      (Ok tt, mkCalculator None s (saved (memory c) pos (top s)) a h g').
Proof.
  intros H Hp.
  destruct (finalizeEntry_Inv c H) as (_ & _ & Hm & _).
  destruct (finalized_idle c H) as (s & m & a & h & g & E).
  rewrite E in Hm. cbn in Hm. subst m.
  exists s, a, h, g, (drawn g). split; [exact E |].
  unfold saveMemory. rewrite (after_finalize _ c H), E.
  now apply saveMemory_idle.
Qed.

Lemma reachable_run_all (ms : list (M unit)) (c : Calculator) :
  reachable c -> Forall engine_op ms -> reachable (run_all ms c).
Proof.
  intros Hc Hms. revert c Hc.
  induction Hms as [| m ms Hm _ IH]; intros c Hc; [exact Hc |].
  cbn [run_all]. apply IH. now apply reach_step.
Qed.

Lemma reachable_typed_nines_enter_1 : reachable typed_nines_enter_1.
Proof.
  apply reachable_run_all; [apply reach_init |].
  repeat (apply Forall_cons; split;
          [first [apply op_enterDigit; lia | apply op_enter] |]).
  apply Forall_nil_2.
Qed.

(** On a stack deep enough, the operands pushed back rebuild the list. *)
Lemma restore_one_list (s : list float) :
  s <> [] -> removelast s ++ [top s] = s.
Proof.
  intros Hs. destruct (snoc_cases s) as [-> | (s' & x & ->)]; [congruence |].
  rewrite removelast_last. unfold top. now rewrite last_snoc.
Qed.

Lemma restore_two_list (s : list float) :
  (2 <= length s)%nat ->
  removelast (removelast s) ++ [top (removelast s)] ++ [top s] = s.
Proof.
  intros Hs. destruct (snoc_cases s) as [-> | (s' & x & ->)]; [cbn in Hs; lia |].
  rewrite length_app in Hs. cbn in Hs.
  rewrite removelast_last, app_assoc, restore_one_list.
  - unfold top. now rewrite last_snoc.
  - intros ->. cbn in Hs. lia.
Qed.

(** ** A failed operation *)

Lemma getRegister_0_idle s m a h g :
  getRegister 0 (mkCalculator None s m a h g) = top s.
Proof. now rewrite getRegister_rev, top_rev. Qed.

Lemma getRegister_1_idle s m a h g :
  getRegister 1 (mkCalculator None s m a h g) = top (removelast s).
Proof.
  rewrite getRegister_rev, top_rev, rev_removelast. cbn [stack].
  destruct (rev s) as [| x l]; reflexivity.
Qed.

(** A one-argument function that fails on X: the press returns, X is back
    and the error indicator is on. *)
Lemma do_Lam1_fails (f : float -> result float) (c : Calculator) :
  Inv c ->
  fails (f (getRegister 0 (exec finalizeEntry c))) = true ->
  exists c', OperationButton_do (Lam1 (pure1 f)) c = (Ok tt, c') /\
    (forall i, getRegister i c' = getRegister i (exec finalizeEntry c)) /\
    err (gui c') = true /\
    (stack (exec finalizeEntry c) <> [] -> stack c' = stack (exec finalizeEntry c)).
Proof.
  intros H. destruct (finalized_idle c H) as (s & m & a & h & g & E).
  change (OperationButton_do (Lam1 (pure1 f)) c)
    with ((finalizeEntry ;; let* x := pop true in
           try_except (let* value := pure1 f x in
                       check_precision value ;; push value false)
                      (push x false ;; gui_error true)) c).
  rewrite (after_finalize _ c H), E, getRegister_0_idle. intros Hf.
  change (exists c', OperationButton_do (Lam1 (pure1 f)) (mkCalculator None s m a h g)
                     = (Ok tt, c') /\
    (forall i, getRegister i c' = getRegister i (mkCalculator None s m a h g)) /\
    err (gui c') = true /\
    (stack (mkCalculator None s m a h g) <> [] ->
     stack c' = stack (mkCalculator None s m a h g))).
  rewrite do_Lam1_idle.
  assert (Hgoal : exists c',
    (Ok tt, mkCalculator None (removelast s ++ [top s]) m a h (errored (drawn g)))
      = (Ok tt, c') /\
    (forall i, getRegister i c' = getRegister i (mkCalculator None s m a h g)) /\
    err (gui c') = true /\
    (stack (mkCalculator None s m a h g) <> [] ->
     stack c' = stack (mkCalculator None s m a h g))).
  { eexists. split; [reflexivity |]. split; [| split; [reflexivity |]].
    - intros i. rewrite !getRegister_rev. apply restore_one.
    - apply restore_one_list. }
  destruct (f (top s)) as [v | e]; cbn [fails] in Hf |- *; rewrite Hf; exact Hgoal.
Qed.

(** A two-argument function that fails on X and Y: the press returns, Y and
    X are back in order and the error indicator is on. *)
Lemma do_Lam2_fails (f : float -> float -> result float) (c : Calculator) :
  Inv c ->
  fails (f (getRegister 0 (exec finalizeEntry c))
           (getRegister 1 (exec finalizeEntry c))) = true ->
  exists c', OperationButton_do (Lam2 (pure2 f)) c = (Ok tt, c') /\
    (forall i, getRegister i c' = getRegister i (exec finalizeEntry c)) /\
    err (gui c') = true /\
    ((2 <= length (stack (exec finalizeEntry c)))%nat ->
     stack c' = stack (exec finalizeEntry c)).
Proof.
  intros H. destruct (finalized_idle c H) as (s & m & a & h & g & E).
  change (OperationButton_do (Lam2 (pure2 f)) c)
    with ((finalizeEntry ;; let* x := pop true in let* y := pop true in
           try_except (let* value := pure2 f x y in
                       check_precision value ;; push value false)
                      (push y true ;; push x false ;; gui_error true)) c).
  rewrite (after_finalize _ c H), E, getRegister_0_idle, getRegister_1_idle.
  intros Hf.
  change (exists c', OperationButton_do (Lam2 (pure2 f)) (mkCalculator None s m a h g)
                     = (Ok tt, c') /\
    (forall i, getRegister i c' = getRegister i (mkCalculator None s m a h g)) /\
    err (gui c') = true /\
    ((2 <= length (stack (mkCalculator None s m a h g)))%nat ->
     stack c' = stack (mkCalculator None s m a h g))).
  rewrite do_Lam2_idle. cbv zeta.
  assert (Hgoal : exists c',
    (Ok tt, mkCalculator None
              (removelast (removelast s) ++ [top (removelast s)] ++ [top s])
              m a h (errored (drawn g)))
      = (Ok tt, c') /\
    (forall i, getRegister i c' = getRegister i (mkCalculator None s m a h g)) /\
    err (gui c') = true /\
    ((2 <= length (stack (mkCalculator None s m a h g)))%nat ->
     stack c' = stack (mkCalculator None s m a h g))).
  { eexists. split; [reflexivity |]. split; [| split; [reflexivity |]].
    - intros i. rewrite !getRegister_rev. apply restore_two.
    - apply restore_two_list. }
  destruct (f (top s) (top (removelast s))) as [v | e];
    cbn [fails] in Hf |- *; rewrite Hf; exact Hgoal.
Qed.

(** * The claims *)

(** C1, as amended: for every press of a one- or two-argument Operation
    button in a reachable state, whose stored function only computes, if the
    function raises a ValueError or an ArithmeticError on the operands or
    the precision test rejects its value, then the press returns normally,
    every register reads as it did once the pending entry was finalized
    (which the press does first), and the error indicator is on; on a stack
    holding the operands the stack is that list again. *)
Theorem C1_failed_operation_restores (c : Calculator)
    (f1 : float -> result float) (f2 : float -> float -> result float) :
  reachable c ->
  (fails (f1 (getRegister 0 (exec finalizeEntry c))) = true ->
   exists c', OperationButton_do (Lam1 (pure1 f1)) c = (Ok tt, c') /\
     (forall i, getRegister i c' = getRegister i (exec finalizeEntry c)) /\
     err (gui c') = true /\
     (stack (exec finalizeEntry c) <> [] -> stack c' = stack (exec finalizeEntry c))) /\
  (fails (f2 (getRegister 0 (exec finalizeEntry c))
             (getRegister 1 (exec finalizeEntry c))) = true ->
   exists c', OperationButton_do (Lam2 (pure2 f2)) c = (Ok tt, c') /\
     (forall i, getRegister i c' = getRegister i (exec finalizeEntry c)) /\
     err (gui c') = true /\
     ((2 <= length (stack (exec finalizeEntry c)))%nat ->
      stack c' = stack (exec finalizeEntry c))).
Proof.
  intros Hr. apply reachable_Inv in Hr. split.
  - apply do_Lam1_fails, Hr.
  - apply do_Lam2_fails, Hr.
Qed.

Lemma C1_witness :
  (exists c', OperationButton_do (Lam1 (pure1 (fun x => truediv 1%float x))) init
              = (Ok tt, c') /\
     (forall i, getRegister i c' = getRegister i (exec finalizeEntry init)) /\
     err (gui c') = true /\
     (stack (exec finalizeEntry init) <> [] -> stack c' = stack (exec finalizeEntry init))) /\
  (exists c', OperationButton_do (Lam2 (pure2 (fun x y => Ok (PrimFloat.add x y))))
                typed_nines_enter_1 = (Ok tt, c') /\
     (forall i, getRegister i c' = getRegister i (exec finalizeEntry typed_nines_enter_1)) /\
     err (gui c') = true /\
     ((2 <= length (stack (exec finalizeEntry typed_nines_enter_1)))%nat ->
      stack c' = stack (exec finalizeEntry typed_nines_enter_1))).
Proof.
  split.
  - apply (proj1 (C1_failed_operation_restores init
                    (fun x => truediv 1%float x) (fun _ _ => Raise ValueError)
                    reach_init)).
    vm_compute. reflexivity.
  - apply (proj2 (C1_failed_operation_restores typed_nines_enter_1
                    (fun _ => Raise ValueError) (fun x y => Ok (PrimFloat.add x y))
                    reachable_typed_nines_enter_1)).
    vm_compute. reflexivity.
Defined.

(** C1 as stated fails while a text is being typed: after 99999999, Enter,
    1 register X reads the placeholder 0; the addition overflows the
    precision test, and the press leaves X = 1, the text it finalized. *)
Lemma C1_counterexample :
  reachable typed_nines_enter_1 /\
  fails (Ok (PrimFloat.add (getRegister 0 (exec finalizeEntry typed_nines_enter_1))
                           (getRegister 1 (exec finalizeEntry typed_nines_enter_1))))
    = true /\
  getRegister 0 (exec (action Buttons.add) typed_nines_enter_1)
    <> getRegister 0 typed_nines_enter_1.
Proof.
  split; [apply reachable_typed_nines_enter_1 |].
  split; [vm_compute; reflexivity |].
  intros H. apply (f_equal (fun v => PrimFloat.eqb v 1%float)) in H.
  vm_compute in H. discriminate.
Qed.

(** C2: where the code departs from the claim.  The product of 10 and
    -100000000 has magnitude 10^9 >= 10^PRECISION, and the multiplication
    button pushes it with no error: the precision test compares the signed
    value.  The product of 10 and 100000000, of the same magnitude, is
    refused and the operands are restored. *)
Theorem C2_negative_overflow_pushed :
  magnitude_exceeds (PrimFloat.mul 10%float (-100000000)%float) = true /\
  stack negative_operands = [(-100000000)%float; 10%float] /\
  stack (exec (action Buttons.mul) negative_operands) = [(-1000000000)%float] /\
  err (gui (exec (action Buttons.mul) negative_operands)) = false /\
  stack (exec (action Buttons.mul) positive_operands) = [100000000%float; 10%float] /\
  err (gui (exec (action Buttons.mul) positive_operands)) = true.
Proof. repeat split; vm_compute; reflexivity. Qed.

(** C3, as amended: for all x and y whose difference y - x the precision
    test accepts (it is below 10^PRECISION), from an empty stack with an
    idle entry buffer, push y, push x and the subtraction button leave the
    stack equal to the single value y - x. *)
Theorem C3_subtraction (c : Calculator) (x y : float) :
  entry c = None -> stack c = [] ->
  ge_int (PrimFloat.sub y x) (10 ^ Z.of_nat PRECISION) = false ->
  exists c', push_push_subtract x y c = (Ok tt, c') /\
    stack c' = [PrimFloat.sub y x].
Proof.
  intros He Hs Hv. destruct c as [e s m a h g]. cbn in He, Hs. subst e s.
  unfold push_push_subtract, bind. rewrite !push_idle.
  change (action Buttons.sub)
    with (OperationButton_do (Lam2 (pure2 (fun x y => Ok (PrimFloat.sub y x))))).
  rewrite do_Lam2_idle. cbn [app removelast top last default fails id].
  rewrite Hv. eexists. split; reflexivity.
Qed.

Lemma C3_witness :
  exists c', push_push_subtract 2%float 7%float init = (Ok tt, c') /\
    stack c' = [PrimFloat.sub 7%float 2%float].
Proof.
  apply (C3_subtraction init 2%float 7%float); reflexivity.
Defined.

(** C3 as stated fails where the difference reaches 10^PRECISION: with
    y = 100000000 and x = 0 the press is an overflow and both operands are
    back on the stack. *)
Lemma C3_counterexample :
  stack (exec (push_push_subtract 0%float 100000000%float) init)
    <> [PrimFloat.sub 100000000%float 0%float].
Proof.
  intros H. apply (f_equal length) in H. vm_compute in H. discriminate.
Qed.

(** C4, as amended: exchange() finalizes the pending entry and then swaps
    registers X and Y: register(0) reads what register(1) read once the
    entry was finalized, register(1) what register(0) read, and every
    register(i), i >= 2, reads as it did; with no entry pending that state
    is the one exchange() was called in. *)
Theorem C4_exchange_swaps_finalized (c : Calculator) :
  reachable c ->
  exists c', exchange c = (Ok tt, c') /\
    getRegister 0 c' = getRegister 1 (exec finalizeEntry c) /\
    getRegister 1 c' = getRegister 0 (exec finalizeEntry c) /\
    (forall i, (2 <= i)%nat -> getRegister i c' = getRegister i (exec finalizeEntry c)) /\
    (entry c = None -> exec finalizeEntry c = c).
Proof.
  intros Hr. apply reachable_Inv in Hr.
  destruct (finalized_idle c Hr) as (s & m & a & h & g & E).
  unfold exchange. rewrite (after_finalize _ c Hr), E.
  change (exists c', exchange (mkCalculator None s m a h g) = (Ok tt, c') /\
    getRegister 0 c' = getRegister 1 (mkCalculator None s m a h g) /\
    getRegister 1 c' = getRegister 0 (mkCalculator None s m a h g) /\
    (forall i, (2 <= i)%nat ->
       getRegister i c' = getRegister i (mkCalculator None s m a h g)) /\
    (entry c = None -> mkCalculator None s m a h g = c)).
  rewrite exchange_idle. eexists. split; [reflexivity |].
  rewrite !getRegister_rev. cbn [stack].
  split; [apply (exchange_two s 0) |].
  split; [apply (exchange_two s 1) |].
  split.
  - intros i Hi. rewrite !getRegister_rev. cbn [stack].
    rewrite (exchange_two s i). destruct i as [| [| i]]; [lia | lia | reflexivity].
  - intros He. rewrite <- E. unfold exec. now rewrite finalizeEntry_idle.
Qed.

Lemma C4_witness :
  exists c', exchange typed_3_enter_5 = (Ok tt, c') /\
    getRegister 0 c' = getRegister 1 (exec finalizeEntry typed_3_enter_5) /\
    getRegister 1 c' = getRegister 0 (exec finalizeEntry typed_3_enter_5) /\
    (forall i, (2 <= i)%nat ->
       getRegister i c' = getRegister i (exec finalizeEntry typed_3_enter_5)) /\
    (entry typed_3_enter_5 = None -> exec finalizeEntry typed_3_enter_5 = typed_3_enter_5).
Proof.
  apply (C4_exchange_swaps_finalized typed_3_enter_5 reachable_typed_3_enter_5).
Defined.

(** C4 as stated fails while a text is being typed: after 3, Enter, 5 the
    registers read X = 0 (the placeholder) and Y = 3; exchange() leaves
    Y = 5, the text just finalized, not the 0 that X read. *)
Lemma C4_counterexample :
  reachable typed_3_enter_5 /\
  getRegister 1 (exec exchange typed_3_enter_5) <> getRegister 0 typed_3_enter_5.
Proof.
  split; [apply reachable_typed_3_enter_5 |].
  intros H. apply (f_equal (fun v => PrimFloat.eqb v 5%float)) in H.
  vm_compute in H. discriminate.
Qed.

#[warnings="-inexact-float"]
Lemma NUMTYPE_05_2 : NUMTYPE "05.2" = Ok 5.2%float.
Proof. vm_compute. reflexivity. Qed.

(** C5: from an idle entry buffer, enterDigit('5'), enterDecimal(),
    enterDigit('2'), finalize() leave in the top register the numeric parse
    of "05.2", which is 5.2; and in every reachable state with a text being
    typed, finalize() puts the numeric parse of "0" + text in the top
    register and returns the buffer to idle. *)
#[warnings="-inexact-float"]
Theorem C5_finalize_parses_entry :
  (forall c, entry c = None ->
     exists c', enter_5_point_2 c = (Ok tt, c') /\
       NUMTYPE "05.2" = Ok (getRegister 0 c') /\
       getRegister 0 c' = 5.2%float /\
       entry c' = None) /\
  (forall c text, reachable c -> entry c = Some text ->
     exists c', finalizeEntry c = (Ok tt, c') /\
       NUMTYPE (String "0" text) = Ok (getRegister 0 c') /\
       entry c' = None).
Proof.
  split.
  - intros [e s m a h g] He. cbn in He. subst e.
    eexists. split.
    + unfold enter_5_point_2.
      change ((enterDigit 5 ;; decimal ;; enterDigit 2 ;; finalizeEntry)
                (mkCalculator None s m a h g))
        with (finalizeEntry
                (mkCalculator (Some "5.2"%string) (s ++ [0%float]) m a h
                   (gui_call_log (ShowEntry "5.2")
                      (gui_call_log (ShowEntry "5.")
                         (gui_call_log (ShowEntry "5")
                            (gui_call_log DrawStack g)))))).
      apply finalizeEntry_editing; [discriminate | apply NUMTYPE_05_2].
    + rewrite getRegister_rev. cbn [stack]. rewrite rev_unit. cbn [nth entry].
      split; [apply NUMTYPE_05_2 | split; reflexivity].
  - intros c text Hr He. apply reachable_Inv in Hr.
    destruct (finalizeEntry_Inv c Hr) as (E & Hidle & _ & _ & _ & _ & Hst).
    rewrite He in Hst. destruct Hst as (v & s & p & Hv & _ & Hs).
    exists (exec finalizeEntry c). repeat split; [exact E | | exact Hidle].
    rewrite getRegister_rev, Hs, rev_unit. exact Hv.
Qed.

Lemma C5_witness :
  (exists c', enter_5_point_2 init = (Ok tt, c') /\
     NUMTYPE "05.2" = Ok (getRegister 0 c') /\
     getRegister 0 c' = 0x1.4cccccccccccdp+2%float /\
     entry c' = None) /\
  (exists c', finalizeEntry typed_5 = (Ok tt, c') /\
     NUMTYPE "05" = Ok (getRegister 0 c') /\
     entry c' = None).
Proof.
  split.
  - apply (proj1 C5_finalize_parses_entry init). reflexivity.
  - apply (proj2 C5_finalize_parses_entry typed_5 "5"%string reachable_typed_5).
    reflexivity.
Defined.

(** C6: for every position p >= 1 and every reachable state, after
    saveMemory(p) reading position p returns the value saved, which is
    register X, and loadMemory(p) pushes it; a position q >= 1 past the
    current length of the bank reads 0. *)
Theorem C6_save_then_load (c : Calculator) (p q : Z) :
  reachable c -> 1 <= p -> 1 <= q ->
  (exists c', saveMemory p c = (Ok tt, c') /\
     getMemory p c' = Ok (getRegister 0 (exec finalizeEntry c)) /\
     exists c'', loadMemory p c' = (Ok tt, c'') /\
       getRegister 0 c'' = getRegister 0 (exec finalizeEntry c)) /\
  (Z.of_nat (length (memory c)) < q -> getMemory q c = Ok 0%float).
Proof.
  intros Hr Hp Hq. apply reachable_Inv in Hr. split.
  - destruct (saveMemory_Inv p c Hr Hp) as (s & a & h & g & g' & E & Es).
    rewrite E, Es.
    assert (Hx : getRegister 0 (mkCalculator None s (memory c) a h g) = top s)
      by now rewrite getRegister_rev, top_rev.
    rewrite Hx.
    assert (Hread := read_saved_same (memory c) p (top s) Hp).
    eexists. split; [reflexivity |]. split; [exact Hread |].
    eexists. split; [apply loadMemory_idle, Hread |].
    rewrite getRegister_rev. cbn [stack]. now rewrite rev_unit.
  - intros Hlen. rewrite getMemory_read_bank. now apply read_bank_beyond.
Qed.

Lemma C6_witness :
  (exists c', saveMemory 2 typed_5 = (Ok tt, c') /\
     getMemory 2 c' = Ok (getRegister 0 (exec finalizeEntry typed_5)) /\
     exists c'', loadMemory 2 c' = (Ok tt, c'') /\
       getRegister 0 c'' = getRegister 0 (exec finalizeEntry typed_5)) /\
  (Z.of_nat (length (memory typed_5)) < 5 -> getMemory 5 typed_5 = Ok 0%float).
Proof.
  apply (C6_save_then_load typed_5 2 5 reachable_typed_5); lia.
Defined.

(** C7: pop() on an empty stack returns 0, leaves the stack empty and
    raises nothing. *)
Theorem C7_pop_empty_stack (c : Calculator) (silent : bool) :
  reachable c ->
  stack c = [] ->
  exists c', pop silent c = (Ok 0%float, c') /\ stack c' = [].
Proof.
  intros Hr Hs. apply reachable_Inv in Hr.
  destruct c as [[text |] s m a h g]; cbn in Hs; subst s.
  - destruct Hr as [_ Hne]. now contradiction Hne.
  - rewrite pop_idle_nil. eauto.
Qed.

Lemma C7_witness :
  exists c', pop false init = (Ok 0%float, c') /\ stack c' = [].
Proof.
  apply (C7_pop_empty_stack init false reach_init). reflexivity.
Defined.

(** C8: in every state reachable from the initial engine state by engine
    operations, the text of an active entry buffer, split on the point, has
    at most PRECISION digits in its whole part and at most PRECISION in its
    fractional part. *)
Theorem C8_entry_digit_counts_bounded (c : Calculator) (text : string) :
  reachable c ->
  entry c = Some text ->
  (fst (digit_counts text) <= PRECISION)%nat /\
  (snd (digit_counts text) <= PRECISION)%nat.
Proof.
  intros Hr He. apply reachable_Inv in Hr. unfold Inv in Hr. rewrite He in Hr.
  destruct Hr as [Hg _].
  apply good_text_parts in Hg as (w & sep & d & E & _ & _ & Lw & Ld & _).
  unfold digit_counts. rewrite E. split; assumption.
Qed.

Lemma C8_witness :
  (fst (digit_counts "5") <= PRECISION)%nat /\
  (snd (digit_counts "5") <= PRECISION)%nat.
Proof.
  apply (C8_entry_digit_counts_bounded typed_5 "5" reachable_typed_5).
  reflexivity.
Defined.

(** C9, as amended: pressing the division button in a reachable state where
    register X reads zero once the pending entry is finalized returns
    normally: the ZeroDivisionError is caught, every register reads as it
    did after that finalization, and the error indicator is on. *)
Theorem C9_division_by_zero_recovers (c : Calculator) :
  reachable c ->
  PrimFloat.eqb (getRegister 0 (exec finalizeEntry c)) 0%float = true ->
  exists c', action Buttons.div c = (Ok tt, c') /\
    (forall i, getRegister i c' = getRegister i (exec finalizeEntry c)) /\
    err (gui c') = true /\
    ((2 <= length (stack (exec finalizeEntry c)))%nat ->
     stack c' = stack (exec finalizeEntry c)).
Proof.
  intros Hr Hx. apply reachable_Inv in Hr.
  apply (do_Lam2_fails (fun x y => truediv y x) c Hr).
  unfold truediv. rewrite Hx. reflexivity.
Qed.

Lemma C9_witness :
  exists c', action Buttons.div init = (Ok tt, c') /\
    (forall i, getRegister i c' = getRegister i (exec finalizeEntry init)) /\
    err (gui c') = true /\
    ((2 <= length (stack (exec finalizeEntry init)))%nat ->
     stack c' = stack (exec finalizeEntry init)).
Proof.
  apply (C9_division_by_zero_recovers init reach_init). reflexivity.
Defined.

(** C9 as stated fails while a text is being typed: after the digit 5,
    register X reads the placeholder 0, yet the division button divides by
    the finalized 5 and no error is signaled. *)
Lemma C9_counterexample :
  reachable typed_5 /\
  PrimFloat.eqb (getRegister 0 typed_5) 0%float = true /\
  err (gui (exec (action Buttons.div) typed_5)) = false.
Proof.
  split; [apply reachable_typed_5 |]. split; vm_compute; reflexivity.
Qed.

(** C10: for every position pos >= 1, saveMemory(pos) leaves the stack as
    finalizing the pending entry leaves it, writes register X into slot pos,
    keeps every other slot that was set, and fills the gap below pos with
    zeros. *)
Theorem C10_saveMemory_frame (c : Calculator) (pos : Z) :
  reachable c -> 1 <= pos ->
  exists c', saveMemory pos c = (Ok tt, c') /\
    stack c' = stack (exec finalizeEntry c) /\
    getMemory pos c' = Ok (getRegister 0 (exec finalizeEntry c)) /\
    (forall j, 1 <= j <= Z.of_nat (length (memory c)) -> j <> pos ->
       getMemory j c' = getMemory j c) /\
    (forall j, Z.of_nat (length (memory c)) < j < pos ->
       getMemory j c' = Ok 0%float) /\
    Z.of_nat (length (memory c')) = Z.max (Z.of_nat (length (memory c))) pos.
Proof.
  intros Hr Hp. apply reachable_Inv in Hr.
  destruct (saveMemory_Inv pos c Hr Hp) as (s & a & h & g & g' & E & Es).
  rewrite E, Es.
  assert (Hx : getRegister 0 (mkCalculator None s (memory c) a h g) = top s)
    by now rewrite getRegister_rev, top_rev.
  rewrite Hx. eexists. split; [reflexivity |].
  split; [reflexivity |].
  split; [apply read_saved_same, Hp |].
  split; [intros j Hj Hne; rewrite !getMemory_read_bank; now apply read_saved_other |].
  split; [intros j Hj; rewrite getMemory_read_bank; now apply read_saved_gap |].
  apply length_saved.
Qed.

Lemma C10_witness :
  exists c', saveMemory 3 typed_5 = (Ok tt, c') /\
    stack c' = stack (exec finalizeEntry typed_5) /\
    getMemory 3 c' = Ok (getRegister 0 (exec finalizeEntry typed_5)) /\
    (forall j, 1 <= j <= Z.of_nat (length (memory typed_5)) -> j <> 3 ->
       getMemory j c' = getMemory j typed_5) /\
    (forall j, Z.of_nat (length (memory typed_5)) < j < 3 ->
       getMemory j c' = Ok 0%float) /\
    Z.of_nat (length (memory c')) = Z.max (Z.of_nat (length (memory typed_5))) 3.
Proof.
  apply (C10_saveMemory_frame typed_5 3 reachable_typed_5). lia.
Defined.

(** ** The pop alternate of the exchange button

    [self.pop] has one parameter, so [do] runs it as a one-argument
    function: X is popped and passed as [silent], the call pops Y and
    returns it, and Y goes through the precision test. *)

(** With Y below the bound the press drops X. *)
Example popX_drops_X (x y : float) (c : Calculator) :
  entry c = None -> stack c = [y; x] ->
  ge_int y (10 ^ Z.of_nat PRECISION) = false ->
  stack (exec (alternate Buttons.exch) c) = [y].
Proof.
  intros He Hs Hy. destruct c as [e s m a h g]. cbn in He, Hs. subst e s.
  unfold exec, alternate, Buttons.exch, OperationButton_do, bind.
  rewrite finalizeEntry_idle by reflexivity.
  rewrite pop_idle. cbn [top removelast last default id].
  unfold try_except, bind. rewrite pop_idle. cbn [top removelast last default id].
  unfold check_precision. rewrite Hy. cbn [ret].
  rewrite push_idle. reflexivity.
Qed.

(** With Y at or above the bound the press fails after Y is gone: X is
    pushed back alone. *)
Example popX_loses_large_Y :
  stack large_Y_operands = [200000000%float; 1%float] /\
  stack (exec (alternate Buttons.exch) large_Y_operands) = [1%float] /\
  err (gui (exec (alternate Buttons.exch) large_Y_operands)) = true.
Proof. repeat split; vm_compute; reflexivity. Qed.

(** * Further properties of the engine *)

(** ** Finalizing, pushing and popping *)

Lemma push_Inv (v : float) (silent : bool) (c : Calculator) :
  Inv c -> push v silent c = push v silent (exec finalizeEntry c).
Proof. intros H. apply (after_finalize _ c H). Qed.

Lemma pop_Inv (silent : bool) (c : Calculator) :
  Inv c -> pop silent c = pop silent (exec finalizeEntry c).
Proof. intros H. apply (after_finalize _ c H). Qed.

Lemma getRegister_snoc_0 s x m a h g :
  getRegister 0 (mkCalculator None (s ++ [x]) m a h g) = x.
Proof. rewrite getRegister_rev. cbn [stack]. now rewrite rev_unit. Qed.

Lemma getRegister_snoc_S i s x m a h g g' :
  getRegister (S i) (mkCalculator None (s ++ [x]) m a h g)
  = getRegister i (mkCalculator None s m a h g').
Proof. rewrite !getRegister_rev. cbn [stack]. now rewrite rev_unit. Qed.

Lemma getRegister_removelast i s m a h g g' :
  getRegister i (mkCalculator None (removelast s) m a h g)
  = getRegister (S i) (mkCalculator None s m a h g').
Proof.
  rewrite !getRegister_rev. cbn [stack]. rewrite rev_removelast.
  destruct (rev s) as [| x l]; [destruct i |]; reflexivity.
Qed.

(** finalizeEntry() is idempotent: a second call right after the first
    returns and changes nothing. *)
Theorem X1_finalizeEntry_idempotent (c : Calculator) :
  reachable c ->
  (finalizeEntry ;; finalizeEntry) c = finalizeEntry c /\
  finalizeEntry (exec finalizeEntry c) = (Ok tt, exec finalizeEntry c).
Proof.
  intros Hr. apply reachable_Inv in Hr.
  destruct (finalizeEntry_Inv c Hr) as (E & Hidle & _).
  split.
  - unfold bind. rewrite E at 1. rewrite (finalizeEntry_idle _ Hidle). now rewrite E.
  - apply (finalizeEntry_idle _ Hidle).
Qed.

Lemma X1_witness :
  (finalizeEntry ;; finalizeEntry) typed_5 = finalizeEntry typed_5 /\
  finalizeEntry (exec finalizeEntry typed_5) = (Ok tt, exec finalizeEntry typed_5).
Proof. apply (X1_finalizeEntry_idempotent typed_5 reachable_typed_5). Defined.

(** push(v) returns; afterwards register X reads v and every register above
    it reads what the one below read once the pending entry was finalized;
    memory is untouched. *)
Theorem X2_push_shifts_registers (c : Calculator) (v : float) (silent : bool) :
  reachable c ->
  exists c', push v silent c = (Ok tt, c') /\
    getRegister 0 c' = v /\
    (forall i, getRegister (S i) c' = getRegister i (exec finalizeEntry c)) /\
    entry c' = None /\ memory c' = memory c.
Proof.
  intros Hr. apply reachable_Inv in Hr.
  destruct (finalizeEntry_Inv c Hr) as (_ & _ & Hm & _).
  destruct (finalized_idle c Hr) as (s & m & a & h & g & E).
  rewrite (push_Inv v silent c Hr), E, push_idle. rewrite E in Hm. cbn in Hm.
  eexists. split; [reflexivity |].
  split; [apply getRegister_snoc_0 |].
  split; [intros i; apply getRegister_snoc_S |].
  split; [reflexivity | exact Hm].
Qed.

Lemma X2_witness :
  exists c', push 7%float false typed_5 = (Ok tt, c') /\
    getRegister 0 c' = 7%float /\
    (forall i, getRegister (S i) c' = getRegister i (exec finalizeEntry typed_5)) /\
    entry c' = None /\ memory c' = memory typed_5.
Proof. apply (X2_push_shifts_registers typed_5 7%float false reachable_typed_5). Defined.

(** pop() returns what register X reads once the pending entry is finalized
    (0 on an empty stack), never raises, and afterwards every register reads
    what the one above it read. *)
Theorem X3_pop_shifts_registers (c : Calculator) (silent : bool) :
  reachable c ->
  exists c', pop silent c = (Ok (getRegister 0 (exec finalizeEntry c)), c') /\
    (forall i, getRegister i c' = getRegister (S i) (exec finalizeEntry c)) /\
    entry c' = None /\ memory c' = memory c.
Proof.
  intros Hr. apply reachable_Inv in Hr.
  destruct (finalizeEntry_Inv c Hr) as (_ & _ & Hm & _).
  destruct (finalized_idle c Hr) as (s & m & a & h & g & E).
  rewrite (pop_Inv silent c Hr), E, pop_idle, getRegister_0_idle.
  rewrite E in Hm. cbn in Hm.
  eexists. split; [reflexivity |].
  split; [intros i; apply getRegister_removelast |].
  split; [reflexivity | exact Hm].
Qed.

Lemma X3_witness :
  exists c', pop false typed_3_enter_5
             = (Ok (getRegister 0 (exec finalizeEntry typed_3_enter_5)), c') /\
    (forall i, getRegister i c' = getRegister (S i) (exec finalizeEntry typed_3_enter_5)) /\
    entry c' = None /\ memory c' = memory typed_3_enter_5.
Proof.
  apply (X3_pop_shifts_registers typed_3_enter_5 false reachable_typed_3_enter_5).
Defined.

(** push(v) followed by pop() returns v and leaves the stack as finalizing
    the pending entry leaves it. *)
Theorem X4_push_then_pop (c : Calculator) (v : float) (s1 s2 : bool) :
  reachable c ->
  exists c1 c2, push v s1 c = (Ok tt, c1) /\ pop s2 c1 = (Ok v, c2) /\
    stack c2 = stack (exec finalizeEntry c) /\ entry c2 = None.
Proof.
  intros Hr. apply reachable_Inv in Hr.
  destruct (finalized_idle c Hr) as (s & m & a & h & g & E).
  rewrite (push_Inv v s1 c Hr), E, push_idle.
  eexists. eexists. split; [reflexivity |].
  rewrite pop_idle_snoc. split; [reflexivity |]. split; reflexivity.
Qed.

Lemma X4_witness :
  exists c1 c2, push 7%float false typed_5 = (Ok tt, c1) /\
    pop false c1 = (Ok 7%float, c2) /\
    stack c2 = stack (exec finalizeEntry typed_5) /\ entry c2 = None.
Proof. apply (X4_push_then_pop typed_5 7%float false false reachable_typed_5). Defined.

(** ** Enter, exchange *)

(** enter() duplicates register X when no entry is pending (pushing 0 on an
    empty stack): X reads as before and every register above reads what the
    one below read; while a text is being typed it is finalizeEntry(). *)
Theorem X5_enter_duplicates_or_finalizes (c : Calculator) :
  reachable c ->
  (entry c = None ->
   exists c', enter c = (Ok tt, c') /\
     getRegister 0 c' = getRegister 0 c /\
     (forall i, getRegister (S i) c' = getRegister i c) /\
     entry c' = None) /\
  (forall text, entry c = Some text -> enter c = finalizeEntry c).
Proof.
  intros Hr. apply reachable_Inv in Hr.
  destruct c as [[text |] s m a h g]; split.
  - intros He. discriminate.
  - intros t Ht. inversion Ht; subst t. destruct Hr as [Hg _].
    destruct text as [| c0 r]; [discriminate | reflexivity].
  - intros _.
    assert (Hp : enter (mkCalculator None s m a h g)
                 = push (top s) false (mkCalculator None s m a h g)).
    { unfold enter, bind, top. cbn [get entry stack]. destruct (last s); reflexivity. }
    rewrite Hp, push_idle. eexists. split; [reflexivity |].
    split; [now rewrite getRegister_snoc_0, getRegister_0_idle |].
    split; [intros i; apply getRegister_snoc_S | reflexivity].
  - intros t Ht. discriminate.
Qed.

Lemma X5_witness :
  (exists c', enter init = (Ok tt, c') /\
     getRegister 0 c' = getRegister 0 init /\
     (forall i, getRegister (S i) c' = getRegister i init) /\
     entry c' = None) /\
  enter typed_5 = finalizeEntry typed_5.
Proof.
  split.
  - apply (proj1 (X5_enter_duplicates_or_finalizes init reach_init)). reflexivity.
  - apply (proj2 (X5_enter_duplicates_or_finalizes typed_5 reachable_typed_5) "5"%string).
    reflexivity.
Defined.

Lemma exchanged_snoc (s : list float) (x y : float) :
  removelast (removelast ((s ++ [y]) ++ [x]))
    ++ [top ((s ++ [y]) ++ [x])] ++ [top (removelast ((s ++ [y]) ++ [x]))]
  = (s ++ [x]) ++ [y].
Proof.
  rewrite !removelast_last. unfold top. rewrite !last_snoc. cbn [default id].
  now rewrite app_assoc.
Qed.

(** exchange() twice: both calls return, every register reads as it did
    once the pending entry was finalized, and a stack of two or more values
    is the same list again. *)
Theorem X6_exchange_twice (c : Calculator) :
  reachable c ->
  exists c1 c2, exchange c = (Ok tt, c1) /\ exchange c1 = (Ok tt, c2) /\
    (forall i, getRegister i c2 = getRegister i (exec finalizeEntry c)) /\
    ((2 <= length (stack (exec finalizeEntry c)))%nat ->
     stack c2 = stack (exec finalizeEntry c)).
Proof.
  intros Hr. apply reachable_Inv in Hr.
  destruct (finalized_idle c Hr) as (s & m & a & h & g & E).
  unfold exchange at 1. rewrite (after_finalize _ c Hr), E.
  change ((finalizeEntry ;; let* x := pop true in let* y := pop true in
           push x true ;; push y false) (mkCalculator None s m a h g))
    with (exchange (mkCalculator None s m a h g)).
  rewrite exchange_idle. eexists. eexists. split; [reflexivity |].
  rewrite exchange_idle. split; [reflexivity |]. split.
  - intros i. rewrite !getRegister_rev. cbn [stack].
    rewrite exchange_two.
    destruct i as [| [| i]]; rewrite exchange_two; reflexivity.
  - cbn [stack]. intros Hl.
    destruct (snoc_cases s) as [-> | (s1 & x & ->)]; [cbn in Hl; lia |].
    destruct (snoc_cases s1) as [-> | (s2 & y & ->)]; [cbn in Hl; lia |].
    now rewrite !exchanged_snoc.
Qed.

Lemma X6_witness :
  exists c1 c2, exchange typed_3_enter_5 = (Ok tt, c1) /\ exchange c1 = (Ok tt, c2) /\
    (forall i, getRegister i c2 = getRegister i (exec finalizeEntry typed_3_enter_5)) /\
    ((2 <= length (stack (exec finalizeEntry typed_3_enter_5)))%nat ->
     stack c2 = stack (exec finalizeEntry typed_3_enter_5)).
Proof. apply (X6_exchange_twice typed_3_enter_5 reachable_typed_3_enter_5). Defined.

(** ** Typing *)

Lemma contains_snoc (ch : ascii) (s : string) :
  contains ch (s ++ String ch EmptyString) = true.
Proof.
  induction s as [| a r IH]; cbn [append contains].
  - now rewrite Ascii.eqb_refl.
  - rewrite IH. apply orb_true_r.
Qed.

Lemma drop_last_snoc (s : string) (ch : ascii) :
  drop_last (s ++ String ch EmptyString) = s.
Proof.
  induction s as [| a r IH]; [reflexivity |].
  destruct r as [| b r']; [reflexivity |].
  change (String a (drop_last (String b r' ++ String ch EmptyString)) = String a (String b r')).
  now rewrite IH.
Qed.

Lemma decimal_editing (c0 : ascii) (r : string) s m a h g :
  decimal (mkCalculator (Some (String c0 r)) s m a h g) =
    if contains "."%char (String c0 r)
    then (Ok tt, mkCalculator (Some (String c0 r)) s m a h g)
    else (Ok tt, mkCalculator (Some (String c0 r ++ ".")%string) s m a h
                   (gui_call_log (ShowEntry (String c0 r ++ ".")) g)).
Proof.
  unfold decimal, bind. cbn [get entry].
  destruct (contains "."%char (String c0 r)); reflexivity.
Qed.

(** decimal() never raises, and a second decimal() right after it changes
    nothing: the text holds at most one point. *)
Theorem X7_decimal_idempotent (c : Calculator) :
  reachable c ->
  exists c1, decimal c = (Ok tt, c1) /\ decimal c1 = (Ok tt, c1) /\
    exists text, entry c1 = Some text /\ contains "."%char text = true.
Proof.
  intros Hr. apply reachable_Inv in Hr.
  destruct c as [[text |] s m a h g].
  - destruct Hr as [Hg _]. destruct text as [| c0 r]; [discriminate |].
    rewrite decimal_editing.
    destruct (contains "."%char (String c0 r)) eqn:Hc.
    + eexists. split; [reflexivity |]. rewrite decimal_editing, Hc.
      split; [reflexivity |]. eexists. split; [reflexivity | exact Hc].
    + eexists. split; [reflexivity |].
      assert (Hc' : contains "."%char (String c0 (r ++ ".")) = true)
        by apply (contains_snoc "."%char (String c0 r)).
      change (String c0 r ++ ".")%string with (String c0 (r ++ ".")).
      rewrite decimal_editing, Hc'.
      split; [reflexivity |]. eexists. split; [reflexivity | exact Hc'].
  - eexists. split; [reflexivity |]. split; [reflexivity |].
    eexists. split; reflexivity.
Qed.

Lemma X7_witness :
  exists c1, decimal typed_5 = (Ok tt, c1) /\ decimal c1 = (Ok tt, c1) /\
    exists text, entry c1 = Some text /\ contains "."%char text = true.
Proof. apply (X7_decimal_idempotent typed_5 reachable_typed_5). Defined.

Lemma enterDigit_idle (d : nat) s m a h g :
  enterDigit d (mkCalculator None s m a h g) =
    (Ok tt, mkCalculator (Some (str d)) (s ++ [0%float]) m a h
              (gui_call_log (ShowEntry (str d)) (drawn g))).
Proof. reflexivity. Qed.

Lemma enterDigit_accepted (d : nat) (text : string) s m a h g :
  accepts_digit text = true ->
  enterDigit d (mkCalculator (Some text) s m a h g) =
    let text' := if String.eqb text "0" then str d else (text ++ str d)%string in
    (Ok tt, mkCalculator (Some text') s m a h (gui_call_log (ShowEntry text') g)).
Proof.
  unfold accepts_digit, enterDigit, bind. cbn [get entry ret].
  destruct (partition "."%char text) as [[w sep] dec].
  intros Hacc. apply negb_true_iff in Hacc. rewrite Hacc. reflexivity.
Qed.

Lemma enterDigit_rejected (d : nat) (text : string) s m a h g :
  accepts_digit text = false ->
  enterDigit d (mkCalculator (Some text) s m a h g) =
    (Ok tt, mkCalculator (Some text) s m a h g).
Proof.
  unfold accepts_digit, enterDigit, bind. cbn [get entry ret].
  destruct (partition "."%char text) as [[w sep] dec].
  intros Hacc. apply negb_false_iff in Hacc. rewrite Hacc. reflexivity.
Qed.

Lemma backspace_editing (c0 : ascii) (r : string) s m a h g :
  backspace (mkCalculator (Some (String c0 r)) s m a h g) =
    let text' := drop_last (String c0 r) in
    if String.eqb text' EmptyString || String.eqb text' "0"
    then (pop false ;; ret tt) (mkCalculator None s m a h g)
    else (Ok tt, mkCalculator (Some text') s m a h (gui_call_log (ShowEntry text') g)).
Proof.
  unfold backspace. unfold bind at 1. cbn [get entry]. cbv zeta.
  unfold bind at 1. cbn [modify].
  destruct (String.eqb (drop_last (String c0 r)) EmptyString
            || String.eqb (drop_last (String c0 r)) "0"); reflexivity.
Qed.

(** A digit typed and erased: from an idle buffer, enterDigit(d) then
    backspace() leave the stack and the idle buffer as they were; while a
    text other than a lone "0" is being typed and has room for the digit,
    they leave that text and the stack as they were. *)
Theorem X8_digit_then_backspace (c : Calculator) (d : nat) :
  reachable c -> (d < 10)%nat ->
  (entry c = None ->
   exists c', (enterDigit d ;; backspace) c = (Ok tt, c') /\
     entry c' = None /\ stack c' = stack c /\ memory c' = memory c) /\
  (forall text, entry c = Some text -> text <> "0"%string ->
     accepts_digit text = true ->
     exists c', (enterDigit d ;; backspace) c = (Ok tt, c') /\
       entry c' = Some text /\ stack c' = stack c /\ memory c' = memory c).
Proof.
  intros Hr Hd. apply reachable_Inv in Hr.
  destruct (str_digit d Hd) as (ch & Hstr & Hch).
  destruct c as [[text |] s m a h g]; split.
  - intros He. discriminate.
  - intros t Ht Hz Hacc. inversion Ht; subst t. destruct Hr as [Hg _].
    unfold bind. rewrite (enterDigit_accepted d text s m a h g Hacc). cbv zeta.
    destruct (String.eqb_spec text "0") as [-> | _]; [congruence |].
    rewrite Hstr.
    destruct text as [| c0 r]; [discriminate |].
    change (String c0 r ++ String ch EmptyString)%string
      with (String c0 (r ++ String ch EmptyString)).
    rewrite backspace_editing. cbv zeta.
    change (String c0 (r ++ String ch EmptyString))
      with (String c0 r ++ String ch EmptyString)%string.
    rewrite drop_last_snoc.
    destruct (String.eqb_spec (String c0 r) "0") as [E | _]; [congruence |].
    cbn [String.eqb orb]. eexists. split; [reflexivity |]. repeat split.
  - intros _. unfold bind. rewrite enterDigit_idle, Hstr, backspace_editing.
    cbn [drop_last String.eqb orb]. unfold bind. rewrite pop_idle_snoc.
    eexists. split; [reflexivity |]. repeat split.
  - intros t Ht. discriminate.
Qed.

Lemma X8_witness :
  (exists c', (enterDigit 3 ;; backspace) init = (Ok tt, c') /\
     entry c' = None /\ stack c' = stack init /\ memory c' = memory init) /\
  (exists c', (enterDigit 3 ;; backspace) typed_5 = (Ok tt, c') /\
     entry c' = Some "5"%string /\ stack c' = stack typed_5 /\
     memory c' = memory typed_5).
Proof.
  split.
  - apply (proj1 (X8_digit_then_backspace init 3 reach_init ltac:(lia))). reflexivity.
  - apply (proj2 (X8_digit_then_backspace typed_5 3 reachable_typed_5 ltac:(lia))
             "5"%string); [reflexivity | discriminate | reflexivity].
Defined.

(** ** No operation of the entry and stack interface raises *)

Lemma returns_push (v : float) (silent : bool) (c : Calculator) :
  Inv c -> fst (push v silent c) = Ok tt.
Proof.
  intros H. destruct (finalized_idle c H) as (s & m & a & h & g & E).
  now rewrite (push_Inv v silent c H), E, push_idle.
Qed.

Lemma returns_pop (silent : bool) (c : Calculator) :
  Inv c -> exists v, fst (pop silent c) = Ok v.
Proof.
  intros H. destruct (finalized_idle c H) as (s & m & a & h & g & E).
  rewrite (pop_Inv silent c H), E, pop_idle. eexists. reflexivity.
Qed.

Lemma returns_enterDigit (d : nat) (c : Calculator) : fst (enterDigit d c) = Ok tt.
Proof.
  destruct c as [[text |] s m a h g]; [| reflexivity].
  destruct (accepts_digit text) eqn:Hacc.
  - now rewrite enterDigit_accepted.
  - now rewrite enterDigit_rejected.
Qed.

Lemma returns_backspace (c : Calculator) : fst (backspace c) = Ok tt.
Proof.
  destruct c as [[[| c0 r] |] s m a h g]; [reflexivity | | reflexivity].
  rewrite backspace_editing. cbv zeta.
  destruct (String.eqb (drop_last (String c0 r)) EmptyString
            || String.eqb (drop_last (String c0 r)) "0"); [| reflexivity].
  unfold bind. rewrite pop_idle. reflexivity.
Qed.

Lemma returns_decimal (c : Calculator) : fst (decimal c) = Ok tt.
Proof.
  destruct c as [[[| c0 r] |] s m a h g]; [reflexivity | | reflexivity].
  rewrite decimal_editing. destruct (contains "."%char (String c0 r)); reflexivity.
Qed.

Lemma returns_enter (c : Calculator) : Inv c -> fst (enter c) = Ok tt.
Proof.
  intros H. destruct (finalizeEntry_Inv c H) as (E & _).
  destruct c as [[[| c0 r] |] s m a h g].
  - destruct H as [Hg _]. discriminate.
  - change (enter (mkCalculator (Some (String c0 r)) s m a h g))
      with (finalizeEntry (mkCalculator (Some (String c0 r)) s m a h g)).
    now rewrite E.
  - unfold enter, bind. cbn [get entry stack].
    destruct (last s); now rewrite push_idle.
Qed.

Lemma returns_exchange (c : Calculator) : Inv c -> fst (exchange c) = Ok tt.
Proof.
  intros H. destruct (finalized_idle c H) as (s & m & a & h & g & E).
  unfold exchange. rewrite (after_finalize _ c H), E.
  change ((finalizeEntry ;; let* x := pop true in let* y := pop true in
           push x true ;; push y false) (mkCalculator None s m a h g))
    with (exchange (mkCalculator None s m a h g)).
  now rewrite exchange_idle.
Qed.

(** In a reachable state no call of the entry and stack interface raises:
    finalizeEntry, enterDigit, decimal, backspace, enter, exchange,
    clearStack, push and pop all return. *)
Theorem X9_entry_and_stack_calls_return (c : Calculator) (d : nat) (v : float)
    (silent : bool) :
  reachable c ->
  fst (finalizeEntry c) = Ok tt /\
  fst (enterDigit d c) = Ok tt /\
  fst (decimal c) = Ok tt /\
  fst (backspace c) = Ok tt /\
  fst (enter c) = Ok tt /\
  fst (exchange c) = Ok tt /\
  fst (clearStack c) = Ok tt /\
  fst (push v silent c) = Ok tt /\
  (exists x, fst (pop silent c) = Ok x).
Proof.
  intros Hr. apply reachable_Inv in Hr.
  destruct (finalizeEntry_Inv c Hr) as (E & _).
  split; [now rewrite E |].
  split; [apply returns_enterDigit |].
  split; [apply returns_decimal |].
  split; [apply returns_backspace |].
  split; [now apply returns_enter |].
  split; [now apply returns_exchange |].
  split; [reflexivity |].
  split; [now apply returns_push | now apply returns_pop].
Qed.

Lemma X9_witness :
  fst (finalizeEntry typed_5) = Ok tt /\
  fst (enterDigit 7 typed_5) = Ok tt /\
  fst (decimal typed_5) = Ok tt /\
  fst (backspace typed_5) = Ok tt /\
  fst (enter typed_5) = Ok tt /\
  fst (exchange typed_5) = Ok tt /\
  fst (clearStack typed_5) = Ok tt /\
  fst (push 1%float false typed_5) = Ok tt /\
  (exists x, fst (pop false typed_5) = Ok x).
Proof.
  apply (X9_entry_and_stack_calls_return typed_5 7 1%float false reachable_typed_5).
Defined.

(** ** Operations that succeed *)

Lemma do_Lam1_Inv (f : float -> result float) (c : Calculator) :
  Inv c ->
  OperationButton_do (Lam1 (pure1 f)) c
  = OperationButton_do (Lam1 (pure1 f)) (exec finalizeEntry c).
Proof. intros H. apply (after_finalize _ c H). Qed.

Lemma do_Lam2_Inv (f : float -> float -> result float) (c : Calculator) :
  Inv c ->
  OperationButton_do (Lam2 (pure2 f)) c
  = OperationButton_do (Lam2 (pure2 f)) (exec finalizeEntry c).
Proof. intros H. apply (after_finalize _ c H). Qed.

(** A stored function that returns a value the precision test accepts: the
    press returns, the value replaces the operand or the two operands, the
    registers above read as they did once the pending entry was finalized,
    and the error indicator is as it was. *)
Theorem X10_operation_pushes_result (c : Calculator)
    (f1 : float -> result float) (f2 : float -> float -> result float) (v : float) :
  reachable c ->
  ge_int v (10 ^ Z.of_nat PRECISION) = false ->
  (f1 (getRegister 0 (exec finalizeEntry c)) = Ok v ->
   exists c', OperationButton_do (Lam1 (pure1 f1)) c = (Ok tt, c') /\
     getRegister 0 c' = v /\
     (forall i, getRegister (S i) c' = getRegister (S i) (exec finalizeEntry c)) /\
     err (gui c') = err (gui c)) /\
  (f2 (getRegister 0 (exec finalizeEntry c)) (getRegister 1 (exec finalizeEntry c)) = Ok v ->
   exists c', OperationButton_do (Lam2 (pure2 f2)) c = (Ok tt, c') /\
     getRegister 0 c' = v /\
     (forall i, getRegister (S i) c' = getRegister (S (S i)) (exec finalizeEntry c)) /\
     err (gui c') = err (gui c)).
Proof.
  intros Hr Hv. apply reachable_Inv in Hr.
  destruct (finalizeEntry_Inv c Hr) as (_ & _ & _ & _ & _ & Herr & _).
  destruct (finalized_idle c Hr) as (s & m & a & h & g & E).
  rewrite (do_Lam1_Inv f1 c Hr), (do_Lam2_Inv f2 c Hr), E.
  rewrite getRegister_0_idle, getRegister_1_idle.
  rewrite E in Herr. cbn [gui] in Herr.
  split; intros Hf.
  - rewrite do_Lam1_idle, Hf. cbn [fails]. rewrite Hv.
    eexists. split; [reflexivity |].
    split; [apply getRegister_snoc_0 |].
    split; [| exact Herr].
    intros i. rewrite (getRegister_snoc_S i _ _ m a h _ g).
    apply getRegister_removelast.
  - rewrite do_Lam2_idle. cbv zeta. rewrite Hf. cbn [fails]. rewrite Hv.
    eexists. split; [reflexivity |].
    split; [apply getRegister_snoc_0 |].
    split; [| exact Herr].
    intros i. rewrite (getRegister_snoc_S i _ _ m a h _ g).
    rewrite (getRegister_removelast i _ m a h g g).
    apply getRegister_removelast.
Qed.

Lemma X10_witness :
  (exists c', OperationButton_do (Lam1 (pure1 (fun x => Ok (PrimFloat.opp x)))) typed_5
              = (Ok tt, c') /\
     getRegister 0 c' = (-5)%float /\
     (forall i, getRegister (S i) c' = getRegister (S i) (exec finalizeEntry typed_5)) /\
     err (gui c') = err (gui typed_5)) /\
  (exists c', OperationButton_do (Lam2 (pure2 (fun x y => Ok (PrimFloat.opp x)))) typed_5
              = (Ok tt, c') /\
     getRegister 0 c' = (-5)%float /\
     (forall i, getRegister (S i) c' = getRegister (S (S i)) (exec finalizeEntry typed_5)) /\
     err (gui c') = err (gui typed_5)).
Proof.
  split.
  - apply (proj1 (X10_operation_pushes_result typed_5
             (fun x => Ok (PrimFloat.opp x)) (fun x y => Ok (PrimFloat.opp x))
             (-5)%float reachable_typed_5 eq_refl)).
    reflexivity.
  - apply (proj2 (X10_operation_pushes_result typed_5
             (fun x => Ok (PrimFloat.opp x)) (fun x y => Ok (PrimFloat.opp x))
             (-5)%float reachable_typed_5 eq_refl)).
    reflexivity.
Defined.

(** ** Trigonometric buttons *)

Lemma TrigButton_action_idle (tf hf : float -> result float) s m a h g :
  TrigButton_action tf hf (mkCalculator None s m a h g) =
    let x := top s in
    let arg := match a with DEG => radians x | _ => x end in
    match (if h then hf arg else tf arg) with
    | Ok v => (Ok tt, mkCalculator None (removelast s ++ [v]) m a h (drawn (drawn g)))
    | Raise e =>
        if caught e
        then (Ok tt, mkCalculator None (removelast s ++ [x]) m a h
                       (errored (drawn (drawn g))))
        else (Raise e, mkCalculator None (removelast s) m a h (drawn g))
    end.
Proof.
  unfold TrigButton_action. unfold bind at 1. rewrite pop_idle.
  unfold bind at 1. cbn [get angles]. cbv zeta.
  unfold try_except, bind. cbn [get hyper lift].
  destruct (if h then hf match a with DEG => radians (top s) | _ => top s end
            else tf match a with DEG => radians (top s) | _ => top s end) as [v | e].
  - rewrite push_idle. reflexivity.
  - destruct (caught e); [rewrite push_idle |]; reflexivity.
Qed.

Lemma TrigButton_alternate_idle (itf ihf : float -> result float) s m a h g :
  TrigButton_alternate itf ihf (mkCalculator None s m a h g) =
    let x := top s in
    match (if h then ihf x else itf x) with
    | Ok v =>
        (Ok tt, mkCalculator None
                  (removelast s ++ [match a with DEG => degrees v | _ => v end])
                  m a h (drawn (drawn g)))
    | Raise e =>
        if caught e
        then (Ok tt, mkCalculator None (removelast s ++ [x]) m a h
                       (errored (drawn (drawn g))))
        else (Raise e, mkCalculator None (removelast s) m a h (drawn g))
    end.
Proof.
  unfold TrigButton_alternate. unfold bind at 1. rewrite pop_idle.
  cbv zeta. unfold try_except, bind. cbn [get hyper lift angles].
  destruct (if h then ihf (top s) else itf (top s)) as [v | e].
  - rewrite push_idle. reflexivity.
  - destruct (caught e); [rewrite push_idle |]; reflexivity.
Qed.

Lemma TrigButton_action_Inv (tf hf : float -> result float) (c : Calculator) :
  Inv c ->
  TrigButton_action tf hf c = TrigButton_action tf hf (exec finalizeEntry c).
Proof.
  intros H. unfold TrigButton_action, pop.
  destruct (finalizeEntry_Inv c H) as (E & Hidle & _).
  unfold bind. rewrite E. now rewrite (finalizeEntry_idle _ Hidle).
Qed.

Lemma TrigButton_alternate_Inv (itf ihf : float -> result float) (c : Calculator) :
  Inv c ->
  TrigButton_alternate itf ihf c = TrigButton_alternate itf ihf (exec finalizeEntry c).
Proof.
  intros H. unfold TrigButton_alternate, pop.
  destruct (finalizeEntry_Inv c H) as (E & Hidle & _).
  unfold bind. rewrite E. now rewrite (finalizeEntry_idle _ Hidle).
Qed.

(** A trigonometric function that raises a ValueError or an ArithmeticError:
    action() and alternate() return, every register reads as it did once
    the pending entry was finalized, and the error indicator is on.  The
    argument of action() is X, converted to radians in DEG mode; the
    function is the hyperbolic one when hyper is set. *)
Theorem X11_trig_failure_restores (c : Calculator)
    (tf itf hf ihf : float -> result float) (e : exn) :
  reachable c -> caught e = true ->
  ((if hyper c
    then hf (match angles c with
             | DEG => radians (getRegister 0 (exec finalizeEntry c))
             | _ => getRegister 0 (exec finalizeEntry c) end)
    else tf (match angles c with
             | DEG => radians (getRegister 0 (exec finalizeEntry c))
             | _ => getRegister 0 (exec finalizeEntry c) end)) = Raise e ->
   exists c', TrigButton_action tf hf c = (Ok tt, c') /\
     (forall i, getRegister i c' = getRegister i (exec finalizeEntry c)) /\
     err (gui c') = true) /\
  ((if hyper c then ihf (getRegister 0 (exec finalizeEntry c))
    else itf (getRegister 0 (exec finalizeEntry c))) = Raise e ->
   exists c', TrigButton_alternate itf ihf c = (Ok tt, c') /\
     (forall i, getRegister i c' = getRegister i (exec finalizeEntry c)) /\
     err (gui c') = true).
Proof.
  intros Hr He. apply reachable_Inv in Hr.
  destruct (finalizeEntry_Inv c Hr) as (_ & _ & _ & Ha & Hh & _).
  destruct (finalized_idle c Hr) as (s & m & a & h & g & E).
  rewrite (TrigButton_action_Inv tf hf c Hr), (TrigButton_alternate_Inv itf ihf c Hr), E.
  rewrite getRegister_0_idle. rewrite E in Ha, Hh. cbn in Ha, Hh. rewrite <- Ha, <- Hh.
  split; intros Hf.
  - rewrite TrigButton_action_idle. cbv zeta. rewrite Hf, He.
    eexists. split; [reflexivity |]. split; [| reflexivity].
    intros i. rewrite !getRegister_rev. apply restore_one.
  - rewrite TrigButton_alternate_idle. cbv zeta. rewrite Hf, He.
    eexists. split; [reflexivity |]. split; [| reflexivity].
    intros i. rewrite !getRegister_rev. apply restore_one.
Qed.

Lemma X11_witness :
  (exists c', TrigButton_action (fun _ => Raise ValueError) (fun x => Ok x) typed_5
              = (Ok tt, c') /\
     (forall i, getRegister i c' = getRegister i (exec finalizeEntry typed_5)) /\
     err (gui c') = true) /\
  (exists c', TrigButton_alternate (fun _ => Raise ValueError) (fun x => Ok x) typed_5
              = (Ok tt, c') /\
     (forall i, getRegister i c' = getRegister i (exec finalizeEntry typed_5)) /\
     err (gui c') = true).
Proof.
  split.
  - apply (proj1 (X11_trig_failure_restores typed_5
             (fun _ => Raise ValueError) (fun _ => Raise ValueError)
             (fun x => Ok x) (fun x => Ok x) ValueError reachable_typed_5 eq_refl)).
    reflexivity.
  - apply (proj2 (X11_trig_failure_restores typed_5
             (fun _ => Raise ValueError) (fun _ => Raise ValueError)
             (fun x => Ok x) (fun x => Ok x) ValueError reachable_typed_5 eq_refl)).
    reflexivity.
Defined.

(** A trigonometric function that returns: action() pushes its value in
    place of X whatever its magnitude (no precision test is applied, unlike
    an Operation button), applied to X converted to radians in DEG mode; the
    registers above and the error indicator are as they were. *)
Theorem X12_trig_action_pushes_any_value (c : Calculator)
    (tf hf : float -> result float) (v : float) :
  reachable c ->
  (if hyper c
   then hf (match angles c with
            | DEG => radians (getRegister 0 (exec finalizeEntry c))
            | _ => getRegister 0 (exec finalizeEntry c) end)
   else tf (match angles c with
            | DEG => radians (getRegister 0 (exec finalizeEntry c))
            | _ => getRegister 0 (exec finalizeEntry c) end)) = Ok v ->
  exists c', TrigButton_action tf hf c = (Ok tt, c') /\
    getRegister 0 c' = v /\
    (forall i, getRegister (S i) c' = getRegister (S i) (exec finalizeEntry c)) /\
    err (gui c') = err (gui c).
Proof.
  intros Hr. apply reachable_Inv in Hr.
  destruct (finalizeEntry_Inv c Hr) as (_ & _ & _ & Ha & Hh & Herr & _).
  destruct (finalized_idle c Hr) as (s & m & a & h & g & E).
  rewrite (TrigButton_action_Inv tf hf c Hr), E.
  rewrite getRegister_0_idle. rewrite E in Ha, Hh, Herr. cbn in Ha, Hh, Herr.
  rewrite <- Ha, <- Hh. intros Hf.
  rewrite TrigButton_action_idle. cbv zeta. rewrite Hf.
  eexists. split; [reflexivity |].
  split; [apply getRegister_snoc_0 |].
  split; [| exact Herr].
  intros i. rewrite (getRegister_snoc_S i _ _ m a h _ g).
  apply getRegister_removelast.
Qed.

Lemma X12_witness :
  exists c', TrigButton_action (fun _ => Ok 1000000000%float) (fun x => Ok x) typed_5
             = (Ok tt, c') /\
    getRegister 0 c' = 1000000000%float /\
    (forall i, getRegister (S i) c' = getRegister (S i) (exec finalizeEntry typed_5)) /\
    err (gui c') = err (gui typed_5).
Proof.
  apply (X12_trig_action_pushes_any_value typed_5
           (fun _ => Ok 1000000000%float) (fun x => Ok x) 1000000000%float
           reachable_typed_5).
  reflexivity.
Defined.

(** An inverse trigonometric function that returns: alternate() applies it
    to X as it is and pushes its value in place of X, converted to degrees
    in DEG mode, with no precision test. *)
Theorem X13_trig_alternate_converts_result (c : Calculator)
    (itf ihf : float -> result float) (v : float) :
  reachable c ->
  (if hyper c then ihf (getRegister 0 (exec finalizeEntry c))
   else itf (getRegister 0 (exec finalizeEntry c))) = Ok v ->
  exists c', TrigButton_alternate itf ihf c = (Ok tt, c') /\
    getRegister 0 c' = (match angles c with DEG => degrees v | _ => v end) /\
    (forall i, getRegister (S i) c' = getRegister (S i) (exec finalizeEntry c)) /\
    err (gui c') = err (gui c).
Proof.
  intros Hr. apply reachable_Inv in Hr.
  destruct (finalizeEntry_Inv c Hr) as (_ & _ & _ & Ha & Hh & Herr & _).
  destruct (finalized_idle c Hr) as (s & m & a & h & g & E).
  rewrite (TrigButton_alternate_Inv itf ihf c Hr), E.
  rewrite getRegister_0_idle. rewrite E in Ha, Hh, Herr. cbn in Ha, Hh, Herr.
  rewrite <- Ha, <- Hh. intros Hf.
  rewrite TrigButton_alternate_idle. cbv zeta. rewrite Hf.
  eexists. split; [reflexivity |].
  split; [apply getRegister_snoc_0 |].
  split; [| exact Herr].
  intros i. rewrite (getRegister_snoc_S i _ _ m a h _ g).
  apply getRegister_removelast.
Qed.

Lemma X13_witness :
  exists c', TrigButton_alternate (fun x => Ok x) (fun x => Ok x) typed_5 = (Ok tt, c') /\
    getRegister 0 c' = (match angles typed_5 with DEG => degrees 5%float | _ => 5%float end) /\
    (forall i, getRegister (S i) c' = getRegister (S i) (exec finalizeEntry typed_5)) /\
    err (gui c') = err (gui typed_5).
Proof.
  apply (X13_trig_alternate_converts_result typed_5 (fun x => Ok x) (fun x => Ok x)
           5%float reachable_typed_5).
  reflexivity.
Defined.

(** ** Frames: what the operations leave alone *)

Lemma stable_ret (P : Calculator -> Prop) {A} (a : A) : stable P (ret a).
Proof. intros c H. exact H. Qed.

Lemma stable_raise (P : Calculator -> Prop) {A} (e : exn) : stable P (@raise A e).
Proof. intros c H. exact H. Qed.

Lemma stable_lift (P : Calculator -> Prop) {A} (r : result A) : stable P (lift r).
Proof. intros c H. exact H. Qed.

Lemma stable_get (P : Calculator -> Prop) : stable P get.
Proof. intros c H. exact H. Qed.

Lemma stable_modify (P : Calculator -> Prop) (f : Calculator -> Calculator) :
  (forall c, P c -> P (f c)) -> stable P (modify f).
Proof. intros Hf c H. apply Hf, H. Qed.

Lemma stable_bind (P : Calculator -> Prop) {A B} (m : M A) (k : A -> M B) :
  stable P m -> (forall a, stable P (k a)) -> stable P (bind m k).
Proof.
  intros Hm Hk c H. rewrite exec_bind.
  specialize (Hm c H). unfold exec in Hm.
  destruct (m c) as [[a | e] c']; cbn [snd] in Hm; [apply Hk, Hm | exact Hm].
Qed.

Lemma stable_try (P : Calculator -> Prop) {A} (body handler : M A) :
  stable P body -> stable P handler -> stable P (try_except body handler).
Proof.
  intros Hb Hh c H. rewrite exec_try.
  specialize (Hb c H). unfold exec in Hb.
  destruct (body c) as [[a | e] c']; cbn [snd] in Hb; [exact Hb |].
  destruct (caught e); [apply Hh, Hb | exact Hb].
Qed.

Lemma stable_when (P : Calculator -> Prop) (b : bool) (m : M unit) :
  stable P m -> stable P (when b m).
Proof. intros Hm. destruct b; [exact Hm | apply stable_ret]. Qed.

Create HintDb frame.

Section Frame.

Variable P : Calculator -> Prop.

Hypothesis P_entry : forall e c, P c -> P (set_entry e c).
Hypothesis P_stack : forall s c, P c -> P (set_stack s c).
Hypothesis P_memory : forall m c, P c -> P (set_memory m c).
Hypothesis P_log : forall k c, P c -> P (set_gui (gui_call_log k (gui c)) c).
Hypothesis P_error : forall b, stable P (gui_error b).
Hypothesis P_shift : stable P shift.
Hypothesis P_unshift : stable P gui_unshift.
Hypothesis P_mode_action : stable P TrigModeButton_action.
Hypothesis P_mode_alternate : stable P TrigModeButton_alternate.

Local Ltac frame_step :=
  match goal with
  | |- stable _ (bind _ _) => apply stable_bind; [| intro]
  | |- stable _ (try_except _ _) => apply stable_try
  | |- stable _ (when _ _) => apply stable_when
  | |- stable _ (ret _) => apply stable_ret
  | |- stable _ (raise _) => apply stable_raise
  | |- stable _ (lift _) => apply stable_lift
  | |- stable _ get => apply stable_get
  | |- stable _ (modify _) =>
      apply stable_modify; intros ? ?; cbv beta;
      first [apply P_entry | apply P_stack | apply P_memory | apply P_log]; assumption
  | |- stable _ (match ?x with _ => _ end) => destruct x
  end.

Local Ltac frame := repeat first [frame_step | solve [auto with frame]].

Lemma stable_gui_drawStack : stable P gui_drawStack.
Proof. unfold gui_drawStack. frame. Qed.

Lemma stable_gui_entry (text : string) : stable P (gui_entry text).
Proof. unfold gui_entry. frame. Qed.

Lemma stable_gui_updateButtons : stable P gui_updateButtons.
Proof. unfold gui_updateButtons. frame. Qed.

#[local] Hint Resolve stable_gui_drawStack stable_gui_entry stable_gui_updateButtons : frame.

Lemma stable_finalizeEntry : stable P finalizeEntry.
Proof. unfold finalizeEntry. frame. Qed.

#[local] Hint Resolve stable_finalizeEntry : frame.

Lemma stable_push (v : float) (silent : bool) : stable P (push v silent).
Proof. unfold push. frame. Qed.

Lemma stable_pop (silent : bool) : stable P (pop silent).
Proof. unfold pop. frame. Qed.

#[local] Hint Resolve stable_push stable_pop : frame.

Lemma stable_enterDigit (d : nat) : stable P (enterDigit d).
Proof. unfold enterDigit. frame. Qed.

Lemma stable_enter : stable P enter.
Proof. unfold enter. frame. Qed.

Lemma stable_decimal : stable P decimal.
Proof. unfold decimal. frame. Qed.

Lemma stable_backspace : stable P backspace.
Proof. unfold backspace. frame. Qed.

Lemma stable_exchange : stable P exchange.
Proof. unfold exchange. frame. Qed.

Lemma stable_clearStack : stable P clearStack.
Proof. unfold clearStack. frame. Qed.

Lemma stable_saveMemory (pos : Z) : stable P (saveMemory pos).
Proof. unfold saveMemory. frame. Qed.

Lemma stable_loadMemory (pos : Z) : stable P (loadMemory pos).
Proof. unfold loadMemory. frame. Qed.

Lemma stable_check_precision (v : float) : stable P (check_precision v).
Proof. unfold check_precision. frame. Qed.

#[local] Hint Resolve stable_check_precision : frame.

(** The callables with no argument that a button holds. *)
Lemma stable_button_Lam0 (f : M unit) : button_lam (Lam0 f) -> stable P f.
Proof.
  intros H. remember (Lam0 f) as l eqn:El.
  destruct H; inversion El; subst.
  - apply stable_enterDigit.
  - apply stable_backspace.
  - apply stable_clearStack.
  - apply stable_decimal.
  - apply stable_enter.
  - apply P_shift.
  - apply stable_exchange.
  - apply stable_push.
  - frame.
Qed.

Lemma stable_button_lam (lam : callable) :
  button_lam lam -> stable P (OperationButton_do lam).
Proof.
  intros H. destruct lam as [f | f | f].
  - apply stable_button_Lam0, H.
  - cbn [OperationButton_do].
    assert (Hf : forall x, stable P (f x))
      by (inversion H; subst; intro; [apply stable_pop | apply stable_lift]).
    pose proof (P_error true). frame.
  - cbn [OperationButton_do].
    assert (Hf : forall x y, stable P (f x y))
      by (inversion H; subst; intros; apply stable_lift).
    pose proof (P_error true). frame.
Qed.

Lemma stable_TrigButton_action tf hf : stable P (TrigButton_action tf hf).
Proof. pose proof (P_error true). unfold TrigButton_action. frame. Qed.

Lemma stable_TrigButton_alternate itf ihf : stable P (TrigButton_alternate itf ihf).
Proof. pose proof (P_error true). unfold TrigButton_alternate. frame. Qed.

Lemma stable_action (b : Button) : layout_button b -> stable P (action b).
Proof.
  intros [name lam alt altlam Hl Ha | tn tf itn itf hn hf ihn ihf |]; cbn [action].
  - apply stable_button_lam, Hl.
  - apply stable_TrigButton_action.
  - apply P_mode_action.
Qed.

Lemma stable_alternate (b : Button) : layout_button b -> stable P (alternate b).
Proof.
  intros [name lam alt altlam Hl Ha | tn tf itn itf hn hf ihn ihf |]; cbn [alternate].
  - destruct altlam as [l |]; [apply stable_button_lam, Ha; reflexivity | apply stable_ret].
  - apply stable_TrigButton_alternate.
  - apply P_mode_alternate.
Qed.

Lemma stable_press (b : Button) : layout_button b -> stable P (press b).
Proof.
  intros Hb. pose proof (stable_action b Hb). pose proof (stable_alternate b Hb).
  pose proof (P_error false). unfold press. frame.
Qed.

(** Every call a driver can make, the memory save apart. *)
Lemma stable_engine_op_but_save (m : M unit) :
  engine_op m -> (exists pos, m = saveMemory pos) \/ stable P m.
Proof.
  intros [v silent | silent | i Hi | | | | | | | | pos | pos | lam Hl | b Hb | b Hb | b Hb];
    try (left; eexists; reflexivity); right.
  - apply stable_push.
  - frame.
  - apply stable_enterDigit.
  - apply stable_finalizeEntry.
  - apply stable_enter.
  - apply P_shift.
  - apply stable_decimal.
  - apply stable_backspace.
  - apply stable_exchange.
  - apply stable_clearStack.
  - apply stable_loadMemory.
  - apply stable_button_lam, Hl.
  - apply stable_action, Hb.
  - apply stable_alternate, Hb.
  - apply stable_press, Hb.
Qed.

Lemma stable_engine_op (m : M unit) : engine_op m -> stable P m.
Proof.
  intros H. destruct (stable_engine_op_but_save m H) as [[pos ->] | Hs];
    [apply stable_saveMemory | exact Hs].
Qed.

End Frame.

(** ** The angle unit *)

(** GRAD is never set: no call leads from a state with another unit to it. *)
Lemma reachable_angles (c : Calculator) : reachable c -> angles c <> GRAD.
Proof.
  induction 1 as [| c m Hc IH Hm]; [discriminate |].
  apply (stable_engine_op (fun c => angles c <> GRAD)); try assumption;
    try (intros; assumption).
  - intros b c0 H. exact H.
  - intros [e s mm a h [er [|] sl cl]] H; exact H.
  - intros c0 H. exact H.
  - intros c0 _. cbn. destruct (angles c0); discriminate.
  - intros c0 H. exact H.
Qed.

(** In every reachable state the angle unit is RAD or DEG: GRAD is declared
    and never reached. *)
Theorem X14_GRAD_is_unreachable (c : Calculator) :
  reachable c -> angles c = RAD \/ angles c = DEG.
Proof.
  intros Hr. apply reachable_angles in Hr.
  destruct (angles c); [left | right | congruence]; reflexivity.
Qed.

Lemma X14_witness : angles typed_5 = RAD \/ angles typed_5 = DEG.
Proof. apply (X14_GRAD_is_unreachable typed_5 reachable_typed_5). Defined.

(** The mode button: action() changes the angle unit and a second action()
    restores it; alternate() negates hyper; neither touches the entry, the
    stack or the memory. *)
Theorem X15_mode_button_toggles (c : Calculator) :
  reachable c ->
  angles (exec TrigModeButton_action c) <> angles c /\
  angles (exec TrigModeButton_action (exec TrigModeButton_action c)) = angles c /\
  hyper (exec TrigModeButton_action c) = hyper c /\
  hyper (exec TrigModeButton_alternate c) = negb (hyper c) /\
  angles (exec TrigModeButton_alternate c) = angles c /\
  (forall m, m = TrigModeButton_action \/ m = TrigModeButton_alternate ->
     fst (m c) = Ok tt /\
     entry (exec m c) = entry c /\ stack (exec m c) = stack c /\
     memory (exec m c) = memory c).
Proof.
  intros Hr. apply reachable_angles in Hr.
  destruct c as [e s m a h g]. cbn in Hr |- *.
  repeat split; try (destruct a; congruence || discriminate);
    destruct H as [-> | ->]; reflexivity.
Qed.

Lemma X15_witness :
  angles (exec TrigModeButton_action typed_5) <> angles typed_5 /\
  angles (exec TrigModeButton_action (exec TrigModeButton_action typed_5)) = angles typed_5 /\
  hyper (exec TrigModeButton_action typed_5) = hyper typed_5 /\
  hyper (exec TrigModeButton_alternate typed_5) = negb (hyper typed_5) /\
  angles (exec TrigModeButton_alternate typed_5) = angles typed_5 /\
  (forall m, m = TrigModeButton_action \/ m = TrigModeButton_alternate ->
     fst (m typed_5) = Ok tt /\
     entry (exec m typed_5) = entry typed_5 /\ stack (exec m typed_5) = stack typed_5 /\
     memory (exec m typed_5) = memory typed_5).
Proof. apply (X15_mode_button_toggles typed_5 reachable_typed_5). Defined.

(** ** The memory bank is written by saveMemory alone *)

(** Every call a driver can make other than saveMemory leaves the memory
    bank as it was, whether the call returns or raises. *)
Theorem X16_only_saveMemory_writes_memory (m : M unit) (c : Calculator) :
  engine_op m ->
  (exists pos, m = saveMemory pos) \/ memory (exec m c) = memory c.
Proof.
  intros Hm.
  destruct (stable_engine_op_but_save (fun c' => memory c' = memory c)) with (m := m)
    as [Hs | Hs]; try assumption; try (intros; assumption).
  - intros b c0 H. exact H.
  - intros [e s mm a h [er [|] sl cl]] H; exact H.
  - intros c0 H. exact H.
  - intros c0 H. exact H.
  - intros c0 H. exact H.
  - left. exact Hs.
  - right. apply Hs. reflexivity.
Qed.

Lemma X16_witness :
  (exists pos, press Buttons.add = saveMemory pos)
  \/ memory (exec (press Buttons.add) typed_5) = memory typed_5.
Proof.
  apply (X16_only_saveMemory_writes_memory (press Buttons.add) typed_5).
  apply op_press. apply lb_operation; [apply bl_pure2 | discriminate].
Defined.

(** ** The error indicator *)

(** A button whose function takes no argument (digits, point, backspace,
    clear, enter, shift, exchange, constants, pop) never turns the error
    indicator on, and a press of such a button without an alternate always
    leaves it off, whatever it showed before. *)
Theorem X17_entry_buttons_clear_error (f : M unit) (name : string) (c : Calculator) :
  button_lam (Lam0 f) ->
  (err (gui c) = false -> err (gui (exec f c)) = false) /\
  err (gui (exec (press (OperationButton name (Lam0 f) None None)) c)) = false.
Proof.
  intros Hf.
  assert (Hs : stable (fun c => err (gui c) = false) f).
  { apply stable_button_Lam0; try assumption; try (intros; assumption).
    intros [e s mm a h [er [|] sl cl]] H; exact H. }
  split; [apply Hs |].
  assert (Hp : stable (fun c => err (gui c) = false)
                 (let* c := get in
                  let oldshift := shifted (gui c) in
                  (if shifted (gui c)
                      && str_truthy (alt_name (OperationButton name (Lam0 f) None None))
                   then alternate (OperationButton name (Lam0 f) None None)
                   else action (OperationButton name (Lam0 f) None None)) ;;
                  let* c := get in
                  when (shiftLock (gui c) && Bool.eqb (shifted (gui c)) oldshift)
                    gui_unshift)).
  { apply stable_bind; [apply stable_get | intros c0].
    apply stable_bind.
    - destruct (shifted (gui c0)); cbn; exact Hs.
    - intros _. apply stable_bind; [apply stable_get | intros c1].
      apply stable_when. intros c2 H. exact H. }
  unfold press. rewrite exec_bind. cbn [gui_error modify]. apply Hp. reflexivity.
Qed.

Lemma X17_witness :
  (err (gui typed_5) = false -> err (gui (exec (enterDigit 7) typed_5)) = false) /\
  err (gui (exec (press (OperationButton "7" (Lam0 (enterDigit 7)) None None)) typed_5))
    = false.
Proof.
  apply (X17_entry_buttons_clear_error (enterDigit 7) "7" typed_5).
  apply bl_digit. lia.
Defined.

(** ** Reading and writing the memory bank *)

Lemma read_bank_positive (m : list float) (pos : Z) :
  1 <= pos ->
  exists v, read_bank m pos = Ok v /\
    (Z.of_nat (length m) < pos -> v = 0%float) /\
    (pos <= Z.of_nat (length m) -> m !! Z.to_nat (pos - 1) = Some v).
Proof.
  intros Hp. unfold read_bank.
  destruct (Z.leb_spec pos (Z.of_nat (length m))) as [Hle | Hgt].
  - destruct (lookup_lt_is_Some_2 m (Z.to_nat (pos - 1))) as [v Hv]; [lia |].
    exists v. split; [apply getitem_ok; [lia | exact Hv] |].
    split; [lia | intros _; exact Hv].
  - exists 0%float. split; [reflexivity |]. split; [reflexivity | lia].
Qed.

(** getMemory(pos) never raises for pos >= 1: it returns the slot, or 0 past
    the end of the bank; so the slots drawStack reads never raise. *)
Theorem X18_getMemory_positive_returns (c : Calculator) (pos : Z) :
  1 <= pos ->
  (exists v, getMemory pos c = Ok v /\
     (Z.of_nat (length (memory c)) < pos -> v = 0%float) /\
     (pos <= Z.of_nat (length (memory c)) ->
      memory c !! Z.to_nat (pos - 1) = Some v)) /\
  Forall (fun r => exists v, r = Ok v) (drawStack_memory c).
Proof.
  intros Hp. split.
  - rewrite getMemory_read_bank. now apply read_bank_positive.
  - unfold drawStack_memory. apply Forall_map, Forall_forall. intros x _.
    rewrite getMemory_read_bank.
    destruct (read_bank_positive (memory c) (Z.of_nat x + 1)) as (v & Hv & _); [lia |].
    eauto.
Qed.

Lemma X18_witness :
  (exists v, getMemory 5 typed_5 = Ok v /\
     (Z.of_nat (length (memory typed_5)) < 5 -> v = 0%float) /\
     (5 <= Z.of_nat (length (memory typed_5)) ->
      memory typed_5 !! Z.to_nat (5 - 1) = Some v)) /\
  Forall (fun r => exists v, r = Ok v) (drawStack_memory typed_5).
Proof. apply (X18_getMemory_positive_returns typed_5 5). lia. Defined.

Lemma getitem_empty {A} (i : Z) : getitem (@nil A) i = Raise IndexError.
Proof.
  unfold getitem. change (Z.of_nat (length (@nil A))) with 0.
  destruct (Z.ltb_spec i 0).
  - destruct (Z.leb_spec 0 (i + 0)); [lia | reflexivity].
  - destruct (Z.leb_spec 0 i); [| reflexivity].
    destruct (Z.ltb_spec i 0); [lia | reflexivity].
Qed.

Lemma getitem_last {A} (l : list A) (x : A) : getitem (l ++ [x]) (-1) = Ok x.
Proof.
  unfold getitem. rewrite length_app. cbn [length].
  replace (-1 <? 0) with true by reflexivity.
  replace (-1 + Z.of_nat (length l + 1)) with (Z.of_nat (length l)) by lia.
  replace (0 <=? Z.of_nat (length l)) with true by (symmetry; apply Z.leb_le; lia).
  replace (Z.of_nat (length l) <? Z.of_nat (length l + 1)) with true
    by (symmetry; apply Z.ltb_lt; lia).
  cbn. rewrite Nat2Z.id.
  rewrite lookup_app_r by lia. now rewrite Nat.sub_diag.
Qed.

Lemma setitem_empty {A} (i : Z) (v : A) : setitem (@nil A) i v = Raise IndexError.
Proof.
  unfold setitem. change (Z.of_nat (length (@nil A))) with 0.
  destruct (Z.ltb_spec i 0).
  - destruct (Z.leb_spec 0 (i + 0)); [lia | reflexivity].
  - destruct (Z.leb_spec 0 i); [| reflexivity].
    destruct (Z.ltb_spec i 0); [lia | reflexivity].
Qed.

(** Position 0 is not refused: getMemory(0) and saveMemory(0) read and
    write the last slot of a bank that has one (Python's index -1), and
    raise IndexError on an empty bank; saveMemory(0) has then finalized the
    pending entry all the same. *)
Theorem X19_position_zero_is_last_slot (c : Calculator) :
  reachable c ->
  (memory c = [] ->
   getMemory 0 c = Raise IndexError /\
   saveMemory 0 c = (Raise IndexError, exec finalizeEntry c)) /\
  (forall m v, memory c = m ++ [v] ->
   getMemory 0 c = Ok v /\
   exists c', saveMemory 0 c = (Ok tt, c') /\
     memory c' = m ++ [getRegister 0 (exec finalizeEntry c)] /\
     stack c' = stack (exec finalizeEntry c)).
Proof.
  intros Hr. apply reachable_Inv in Hr.
  destruct (finalizeEntry_Inv c Hr) as (_ & _ & Hm & _).
  destruct (finalized_idle c Hr) as (s & m0 & a & h & g & E).
  rewrite E in Hm. cbn in Hm. subst m0.
  assert (Hsave : saveMemory 0 c = saveMemory 0 (mkCalculator None s (memory c) a h g))
    by (unfold saveMemory; now rewrite (after_finalize _ c Hr), E).
  rewrite Hsave, E.
  split.
  - intros Hmem. rewrite getMemory_read_bank, Hmem. split.
    + unfold read_bank. cbn [length]. apply getitem_empty.
    + unfold saveMemory, bind. rewrite finalizeEntry_idle by reflexivity.
      cbn [get memory length]. change (Z.of_nat 0 <? 0) with false.
      cbn [when ret memory lift]. now rewrite setitem_empty.
  - intros m v Hmem. rewrite getMemory_read_bank, Hmem. split.
    + unfold read_bank. rewrite length_app. cbn [length].
      destruct (Z.leb_spec 0 (Z.of_nat (length m + 1))); [| lia].
      apply getitem_last.
    + unfold saveMemory, bind. rewrite finalizeEntry_idle by reflexivity.
      cbn [get memory]. rewrite length_app. cbn [length].
      destruct (Z.ltb_spec (Z.of_nat (length m + 1)) 0); [lia |].
      cbn [when ret lift memory]. change (0 - 1) with (-1). rewrite setitem_last.
      eexists. split; [reflexivity |].
      split; [| reflexivity].
      reflexivity.
Qed.

Lemma reachable_typed_5_saved : reachable typed_5_saved.
Proof. apply reach_step; [apply reachable_typed_5 | apply op_saveMemory]. Qed.

Lemma X19_witness :
  (getMemory 0 typed_5 = Raise IndexError /\
   saveMemory 0 typed_5 = (Raise IndexError, exec finalizeEntry typed_5)) /\
  (getMemory 0 typed_5_saved = Ok 5%float /\
   exists c', saveMemory 0 typed_5_saved = (Ok tt, c') /\
     memory c' = [] ++ [getRegister 0 (exec finalizeEntry typed_5_saved)] /\
     stack c' = stack (exec finalizeEntry typed_5_saved)).
Proof.
  split.
  - apply (proj1 (X19_position_zero_is_last_slot typed_5 reachable_typed_5)).
    reflexivity.
  - apply (proj2 (X19_position_zero_is_last_slot typed_5_saved reachable_typed_5_saved)
             [] 5%float).
    reflexivity.
Defined.

(** loadMemory(pos) for pos >= 1 returns; register X then reads what
    getMemory(pos) returns, every register above reads what the one below
    read once the pending entry was finalized, and the bank is as it was. *)
Theorem X20_loadMemory_pushes_slot (c : Calculator) (pos : Z) :
  reachable c -> 1 <= pos ->
  exists v c', getMemory pos c = Ok v /\ loadMemory pos c = (Ok tt, c') /\
    getRegister 0 c' = v /\
    (forall i, getRegister (S i) c' = getRegister i (exec finalizeEntry c)) /\
    memory c' = memory c.
Proof.
  intros Hr Hp. apply reachable_Inv in Hr.
  destruct (finalizeEntry_Inv c Hr) as (_ & _ & Hm & _).
  destruct (finalized_idle c Hr) as (s & m & a & h & g & E).
  rewrite E in Hm. cbn in Hm.
  destruct (read_bank_positive (memory c) pos Hp) as (v & Hv & _).
  exists v. unfold loadMemory, bind. cbn [get]. rewrite getMemory_read_bank, Hv.
  cbn [lift]. rewrite (push_Inv v false c Hr), E, push_idle.
  eexists. split; [reflexivity |]. split; [reflexivity |].
  split; [apply getRegister_snoc_0 |].
  split; [intros i; apply getRegister_snoc_S | exact Hm].
Qed.

Lemma X20_witness :
  exists v c', getMemory 1 typed_5_saved = Ok v /\
    loadMemory 1 typed_5_saved = (Ok tt, c') /\
    getRegister 0 c' = v /\
    (forall i, getRegister (S i) c' = getRegister i (exec finalizeEntry typed_5_saved)) /\
    memory c' = memory typed_5_saved.
Proof.
  apply (X20_loadMemory_pushes_slot typed_5_saved 1 reachable_typed_5_saved). lia.
Defined.

(** ** Memory clicks (App.clickMemory) *)

Lemma reachable_typed_5_shifted : reachable typed_5_shifted.
Proof.
  apply reach_step; [apply reachable_typed_5 |].
  apply op_press, lb_operation; [apply bl_shift | discriminate].
Qed.

(** A shifted click on memory button pos >= 1 saves register X there and
    releases the shift; the next click on the same button pushes the saved
    value: X and Y then both read it and slot pos still holds it. *)
Theorem X21_click_saves_then_loads (c : Calculator) (pos : Z) :
  reachable c -> 1 <= pos -> shifted (gui c) = true ->
  exists c1 c2, clickMemory pos c = (Ok tt, c1) /\
    shifted (gui c1) = false /\
    getMemory pos c1 = Ok (getRegister 0 (exec finalizeEntry c)) /\
    clickMemory pos c1 = (Ok tt, c2) /\
    getRegister 0 c2 = getRegister 0 (exec finalizeEntry c) /\
    getRegister 1 c2 = getRegister 0 (exec finalizeEntry c) /\
    getMemory pos c2 = Ok (getRegister 0 (exec finalizeEntry c)).
Proof.
  intros Hr Hp Hsh. apply reachable_Inv in Hr.
  destruct (saveMemory_Inv pos c Hr Hp) as (s & a & h & g & g' & E & Es).
  rewrite E, getRegister_0_idle.
  assert (Hread := read_saved_same (memory c) pos (top s) Hp).
  assert (Hc1 : clickMemory pos c =
            (Ok tt, mkCalculator None s (saved (memory c) pos (top s)) a h
                      (mkApp (err g') false false (UpdateButtons :: calls g')))).
  { unfold clickMemory. unfold bind at 1. unfold bind at 1.
    cbn [get]. rewrite Hsh, Es. reflexivity. }
  rewrite Hc1.
  eexists. eexists. split; [reflexivity |].
  split; [reflexivity |].
  split; [exact Hread |].
  unfold clickMemory. unfold bind at 1. unfold bind at 1.
  cbn [get gui shifted]. erewrite loadMemory_idle by exact Hread.
  split; [reflexivity |].
  split; [apply getRegister_snoc_0 |].
  split; [| exact Hread].
  cbn [gui_unshift gui_doShift]. 
  rewrite !getRegister_rev. cbn. now rewrite rev_unit, top_rev.
Qed.

Lemma X21_witness :
  exists c1 c2, clickMemory 2 typed_5_shifted = (Ok tt, c1) /\
    shifted (gui c1) = false /\
    getMemory 2 c1 = Ok (getRegister 0 (exec finalizeEntry typed_5_shifted)) /\
    clickMemory 2 c1 = (Ok tt, c2) /\
    getRegister 0 c2 = getRegister 0 (exec finalizeEntry typed_5_shifted) /\
    getRegister 1 c2 = getRegister 0 (exec finalizeEntry typed_5_shifted) /\
    getMemory 2 c2 = Ok (getRegister 0 (exec finalizeEntry typed_5_shifted)).
Proof.
  apply (X21_click_saves_then_loads typed_5_shifted 2 reachable_typed_5_shifted).
  - lia.
  - reflexivity.
Defined.

(** ** The entry display (CalcDisplay.entry) *)

Lemma length_blanks (n : nat) : String.length (blanks n) = n.
Proof. induction n as [| n IH]; cbn; [reflexivity | now rewrite IH]. Qed.

Lemma length_rjust (n : nat) (s : string) :
  String.length (rjust n s) = Nat.max n (String.length s).
Proof. unfold rjust. rewrite string_length_app, length_blanks. lia. Qed.

Lemma length_ljust (n : nat) (s : string) :
  String.length (ljust n s) = Nat.max n (String.length s).
Proof. unfold ljust. rewrite string_length_app, length_blanks. lia. Qed.

Lemma partition_sep_contains (s : string) :
  snd (fst (partition "."%char s))
  = if contains "."%char s then "."%string else EmptyString.
Proof.
  induction s as [| a r IH]; cbn [partition contains]; [reflexivity |].
  destruct (Ascii.eqb a "."%char); [reflexivity |].
  destruct (partition "."%char r) as [[w sep] d]. cbn in IH |- *. exact IH.
Qed.

(** While a text is being typed in a reachable state, the line the display
    shows for it is exactly 2 * WIDTH + 2 = 18 characters long, and the
    point, or a blank while there is none, is always at index 9. *)
Theorem X22_entry_display_is_aligned (c : Calculator) (text : string) :
  reachable c -> entry c = Some text ->
  String.length (CalcDisplay_entry text) = (2 * WIDTH + 2)%nat /\
  String.get (WIDTH + 1) (CalcDisplay_entry text)
  = Some (if contains "."%char text then "."%char else " "%char).
Proof.
  intros Hr He. apply reachable_Inv in Hr. unfold Inv in Hr. rewrite He in Hr.
  destruct Hr as [Hg _].
  apply good_text_parts in Hg as (w & sep & d & E & _ & _ & Lw & Ld & _).
  assert (Hsep := partition_sep_contains text). rewrite E in Hsep. cbn in Hsep.
  unfold CalcDisplay_entry. rewrite E.
  unfold PRECISION in Lw, Ld. unfold WIDTH.
  assert (Hw : String.length (rjust 8 w) = 8%nat) by (rewrite length_rjust; lia).
  assert (Hd : String.length (ljust 8 d) = 8%nat) by (rewrite length_ljust; lia).
  assert (Hs : rjust 1 sep = String (if contains "."%char text then "."%char else " "%char)
                               EmptyString)
    by (rewrite Hsep; destruct (contains "."%char text); reflexivity).
  rewrite Hs. split.
  - rewrite !string_length_app. cbn [String.length]. rewrite Hw, Hd. reflexivity.
  - pose proof (append_correct2 (rjust 8 w)
                  (String (if contains "."%char text then "."%char else " "%char)
                     EmptyString ++ ljust 8 d) 0) as Hget.
    rewrite Hw in Hget. cbn [Nat.add String.get append] in Hget.
    cbn [append Nat.add String.get]. rewrite <- Hget. reflexivity.
Qed.

Lemma X22_witness :
  String.length (CalcDisplay_entry "5") = (2 * WIDTH + 2)%nat /\
  String.get (WIDTH + 1) (CalcDisplay_entry "5")
  = Some (if contains "."%char "5" then "."%char else " "%char).
Proof.
  apply (X22_entry_display_is_aligned typed_5 "5" reachable_typed_5). reflexivity.
Defined.

(** ** The pop alternates *)

Lemma do_pop1_idle s m a h g :
  OperationButton_do (Lam1 (fun x => pop (truthy x))) (mkCalculator None s m a h g) =
    let x := top s in
    let y := top (removelast s) in
    let rest := removelast (removelast s) in
    let g1 := if truthy x then g else drawn g in
    if ge_int y (10 ^ Z.of_nat PRECISION)
    then (Ok tt, mkCalculator None (rest ++ [x]) m a h (errored (drawn g1)))
    else (Ok tt, mkCalculator None (rest ++ [y]) m a h (drawn g1)).
Proof.
  unfold OperationButton_do, bind. rewrite finalizeEntry_idle by reflexivity.
  rewrite pop_idle. unfold try_except, bind. rewrite pop_idle.
  unfold check_precision. cbv zeta.
  destruct (ge_int (top (removelast s)) (10 ^ Z.of_nat PRECISION)).
  - cbn [raise caught]. rewrite push_idle. reflexivity.
  - cbn [ret]. rewrite push_idle. reflexivity.
Qed.

(** The pop alternate of the exchange button drops register X: every
    register then reads what the one above it read once the pending entry
    was finalized.  In SimpleCalculator this always holds; in Calculator,
    where the stored callable is self.pop run as a one-argument function,
    it holds when Y passes the precision test. *)
Theorem X23_pop_alternate_drops_X (c : Calculator) :
  reachable c ->
  (exists c', alternate SimpleButtons.exch c = (Ok tt, c') /\
     forall i, getRegister i c' = getRegister (S i) (exec finalizeEntry c)) /\
  (ge_int (getRegister 1 (exec finalizeEntry c)) (10 ^ Z.of_nat PRECISION) = false ->
   exists c', alternate Buttons.exch c = (Ok tt, c') /\
     (forall i, getRegister i c' = getRegister (S i) (exec finalizeEntry c)) /\
     err (gui c') = err (gui c)).
Proof.
  intros Hr. apply reachable_Inv in Hr.
  destruct (finalizeEntry_Inv c Hr) as (_ & _ & _ & _ & _ & Herr & _).
  destruct (finalized_idle c Hr) as (s & m & a & h & g & E).
  rewrite E in Herr. cbn [gui] in Herr. split.
  - cbn [alternate SimpleButtons.exch OperationButton_do].
    unfold bind. rewrite (pop_Inv false c Hr), E, pop_idle.
    eexists. split; [reflexivity |].
    intros i. apply getRegister_removelast.
  - change (alternate Buttons.exch)
      with (OperationButton_do (Lam1 (fun x => pop (truthy x)))).
    change (OperationButton_do (Lam1 (fun x => pop (truthy x))) c)
      with ((finalizeEntry ;; let* x := pop true in
             try_except (let* value := pop (truthy x) in
                         check_precision value ;; push value false)
                        (push x false ;; gui_error true)) c).
    rewrite (after_finalize _ c Hr), E, getRegister_1_idle. intros Hy.
    change (exists c', OperationButton_do (Lam1 (fun x => pop (truthy x)))
                         (mkCalculator None s m a h g) = (Ok tt, c') /\
      (forall i, getRegister i c' = getRegister (S i) (mkCalculator None s m a h g)) /\
      err (gui c') = err (gui c)).
    rewrite do_pop1_idle. cbv zeta. rewrite Hy.
    eexists. split; [reflexivity |]. split.
    + intros i. rewrite !getRegister_rev. cbn [stack].
      rewrite restore_one, rev_removelast.
      destruct (rev s) as [| x l]; [destruct i |]; reflexivity.
    + cbn. destruct (truthy (top s)); exact Herr.
Qed.

Lemma X23_witness :
  (exists c', alternate SimpleButtons.exch typed_3_enter_5 = (Ok tt, c') /\
     forall i, getRegister i c' = getRegister (S i) (exec finalizeEntry typed_3_enter_5)) /\
  (exists c', alternate Buttons.exch typed_3_enter_5 = (Ok tt, c') /\
     (forall i, getRegister i c' = getRegister (S i) (exec finalizeEntry typed_3_enter_5)) /\
     err (gui c') = err (gui typed_3_enter_5)).
Proof.
  split.
  - apply (proj1 (X23_pop_alternate_drops_X typed_3_enter_5 reachable_typed_3_enter_5)).
  - apply (proj2 (X23_pop_alternate_drops_X typed_3_enter_5 reachable_typed_3_enter_5)).
    reflexivity.
Defined.

(** In Calculator, when Y does not pass the precision test, the pop
    alternate fails after Y has been popped: the press returns with the
    error indicator on, X is pushed back alone, and Y is gone: X reads as
    before and every register above reads what the one two above read. *)
Theorem X24_pop_alternate_loses_large_Y (c : Calculator) :
  reachable c ->
  ge_int (getRegister 1 (exec finalizeEntry c)) (10 ^ Z.of_nat PRECISION) = true ->
  exists c', alternate Buttons.exch c = (Ok tt, c') /\
    getRegister 0 c' = getRegister 0 (exec finalizeEntry c) /\
    (forall i, getRegister (S i) c' = getRegister (S (S i)) (exec finalizeEntry c)) /\
    err (gui c') = true.
Proof.
  intros Hr. apply reachable_Inv in Hr.
  destruct (finalized_idle c Hr) as (s & m & a & h & g & E).
  change (alternate Buttons.exch)
    with (OperationButton_do (Lam1 (fun x => pop (truthy x)))).
  change (OperationButton_do (Lam1 (fun x => pop (truthy x))) c)
    with ((finalizeEntry ;; let* x := pop true in
           try_except (let* value := pop (truthy x) in
                       check_precision value ;; push value false)
                      (push x false ;; gui_error true)) c).
  rewrite (after_finalize _ c Hr), E, getRegister_1_idle, getRegister_0_idle. intros Hy.
  change (exists c', OperationButton_do (Lam1 (fun x => pop (truthy x)))
                       (mkCalculator None s m a h g) = (Ok tt, c') /\
    getRegister 0 c' = top s /\
    (forall i, getRegister (S i) c' = getRegister (S (S i)) (mkCalculator None s m a h g)) /\
    err (gui c') = true).
  rewrite do_pop1_idle. cbv zeta. rewrite Hy.
  eexists. split; [reflexivity |].
  split; [apply getRegister_snoc_0 |].
  split; [| reflexivity].
  intros i. rewrite (getRegister_snoc_S i _ _ m a h _ g).
  rewrite (getRegister_removelast i _ m a h g g).
  apply getRegister_removelast.
Qed.

Lemma X24_witness :
  exists c', alternate Buttons.exch large_Y_operands = (Ok tt, c') /\
    getRegister 0 c' = getRegister 0 (exec finalizeEntry large_Y_operands) /\
    (forall i, getRegister (S i) c'
               = getRegister (S (S i)) (exec finalizeEntry large_Y_operands)) /\
    err (gui c') = true.
Proof.
  apply (X24_pop_alternate_loses_large_Y large_Y_operands).
  - apply reachable_run_all; [apply reach_init |].
    repeat (apply Forall_cons; split; [apply op_push |]). apply Forall_nil_2.
  - vm_compute. reflexivity.
Defined.

(** ** The shift latch *)

(** Pressing the shift button on an unshifted GUI latches the shift
    (shifted and shiftLock set) and touches nothing of the engine; pressed
    again it releases both.  With the latch on, a press of the mode button
    runs its alternate (hyper is negated, the angle unit kept) and releases
    the latch. *)
Theorem X25_shift_latch (c : Calculator) :
  shifted (gui c) = false ->
  let c1 := exec (press Buttons.shift) c in
  shifted (gui c1) = true /\ shiftLock (gui c1) = true /\
  entry c1 = entry c /\ stack c1 = stack c /\ memory c1 = memory c /\
  shifted (gui (exec (press Buttons.shift) c1)) = false /\
  shiftLock (gui (exec (press Buttons.shift) c1)) = false /\
  hyper (exec (press TrigModeButton) c1) = negb (hyper c) /\
  angles (exec (press TrigModeButton) c1) = angles c /\
  shifted (gui (exec (press TrigModeButton) c1)) = false /\
  shiftLock (gui (exec (press TrigModeButton) c1)) = false.
Proof.
  destruct c as [e s m a h [er sh sl cl]]. cbn [gui shifted]. intros ->.
  cbv zeta. repeat split.
Qed.

Lemma X25_witness :
  let c1 := exec (press Buttons.shift) typed_5 in
  shifted (gui c1) = true /\ shiftLock (gui c1) = true /\
  entry c1 = entry typed_5 /\ stack c1 = stack typed_5 /\ memory c1 = memory typed_5 /\
  shifted (gui (exec (press Buttons.shift) c1)) = false /\
  shiftLock (gui (exec (press Buttons.shift) c1)) = false /\
  hyper (exec (press TrigModeButton) c1) = negb (hyper typed_5) /\
  angles (exec (press TrigModeButton) c1) = angles typed_5 /\
  shifted (gui (exec (press TrigModeButton) c1)) = false /\
  shiftLock (gui (exec (press TrigModeButton) c1)) = false.
Proof. apply (X25_shift_latch typed_5). reflexivity. Defined.

(** ** The text being typed: its placeholder and its leading digit *)

Lemma norm_whole_snoc (w : string) (ch : ascii) :
  norm_whole w = true -> w <> "0"%string ->
  norm_whole (w ++ String ch EmptyString) = true.
Proof.
  destruct w as [| a r]; [discriminate |]. cbn [norm_whole append].
  destruct (Ascii.eqb_spec a "0"%char) as [-> | _]; [| reflexivity].
  cbn [negb orb]. intros Hr Hne. apply String.eqb_eq in Hr. subst r. congruence.
Qed.

Lemma norm_whole_drop_last (w : string) :
  norm_whole w = true -> drop_last w <> EmptyString ->
  norm_whole (drop_last w) = true.
Proof.
  destruct w as [| a [| b r]]; [discriminate | intros _ H; now contradiction H |].
  change (drop_last (String a (String b r))) with (String a (drop_last (String b r))).
  cbn [norm_whole String.eqb]. rewrite orb_false_r. intros -> _. reflexivity.
Qed.

Lemma settles_stable {A} (m : M A) : settles m -> stable InvTyping m.
Proof.
  intros Hs c [Hi _]. split; [unfold Inv | unfold Typing]; rewrite (Hs c Hi); exact I.
Qed.

Lemma same_stable {A} (m : M A) :
  (forall c, entry (exec m c) = entry c /\ stack (exec m c) = stack c) ->
  stable InvTyping m.
Proof.
  intros Hm c [Hi Ht]. unfold InvTyping, Inv, Typing in *.
  destruct (Hm c) as [-> ->]. split; assumption.
Qed.

Lemma stable_typing_enterDigit (d : nat) : (d < 10)%nat -> stable InvTyping (enterDigit d).
Proof.
  intros Hd c [Hi Ht]. pose proof (preserves_enterDigit d Hd c Hi) as Hi'.
  split; [exact Hi' |].
  destruct (str_digit d Hd) as (ch & Hstr & Hch).
  destruct c as [[text |] s m a h g].
  - destruct Ht as [Hn Hl]. cbn [entry stack] in Hn, Hl.
    destruct (accepts_digit text) eqn:Hacc.
    + unfold exec. rewrite (enterDigit_accepted d text s m a h g Hacc). cbv zeta.
      rewrite Hstr. unfold Typing. cbn [snd entry stack]. split; [| exact Hl].
      destruct (String.eqb_spec text "0") as [-> | Hne].
      { cbn [partition]. rewrite (is_digit_not_point ch Hch). cbn. apply orb_true_r. }
      rewrite (partition_snoc text ch (is_digit_not_point ch Hch)).
      destruct (partition "."%char text) as [[w sep] dec] eqn:Ep. cbn [fst] in Hn.
      destruct sep as [| c0 sep']; cbn [fst]; [| exact Hn].
      apply partition_nosep in Ep as [-> ->]. now apply norm_whole_snoc.
    + unfold exec. rewrite (enterDigit_rejected d text s m a h g Hacc).
      split; assumption.
  - unfold exec. rewrite enterDigit_idle, Hstr. unfold Typing. cbn [snd entry stack].
    split; [| apply last_snoc].
    cbn [partition]. rewrite (is_digit_not_point ch Hch). cbn. apply orb_true_r.
Qed.

Lemma stable_typing_decimal : stable InvTyping decimal.
Proof.
  intros c [Hi Ht]. pose proof (preserves_decimal c Hi) as Hi'.
  split; [exact Hi' |].
  destruct c as [[[| c0 r] |] s m a h g].
  - destruct Hi as [Hg _]. discriminate.
  - destruct Ht as [Hn Hl]. cbn [entry stack] in Hn, Hl.
    unfold exec. rewrite decimal_editing.
    destruct (contains "."%char (String c0 r)) eqn:Hc; [split; assumption |].
    unfold Typing. cbn [snd entry stack]. split; [| exact Hl].
    rewrite (partition_add_point _ Hc). rewrite (partition_no_point _ Hc) in Hn. exact Hn.
  - unfold Typing. cbn. split; [reflexivity | apply last_snoc].
Qed.

Lemma stable_typing_backspace : stable InvTyping backspace.
Proof.
  intros c [Hi Ht]. pose proof (preserves_backspace c Hi) as Hi'.
  split; [exact Hi' |].
  destruct c as [[[| c0 r] |] s m a h g].
  - destruct Hi as [Hg _]. discriminate.
  - destruct Ht as [Hn Hl]. cbn [entry stack] in Hn, Hl.
    unfold exec. rewrite backspace_editing. cbv zeta.
    destruct (String.eqb_spec (drop_last (String c0 r)) EmptyString) as [E1 | E1].
    + cbn [orb]. unfold bind. rewrite pop_idle. exact I.
    + cbn [orb]. destruct (String.eqb (drop_last (String c0 r)) "0").
      * unfold bind. rewrite pop_idle. exact I.
      * unfold Typing. cbn [snd entry stack]. split; [| exact Hl].
        rewrite partition_drop_last.
        destruct (partition "."%char (String c0 r)) as [[w sep] dec] eqn:Ep.
        cbn [fst] in Hn.
        destruct sep as [| c1 sep'].
        -- cbn [fst]. apply partition_nosep in Ep as [-> ->].
           now apply norm_whole_drop_last.
        -- destruct dec; cbn [fst]; exact Hn.
  - exact Ht.
Qed.

Lemma settles_enter : settles enter.
Proof.
  intros c H. destruct c as [[[| c0 r] |] s m a h g].
  - destruct H as [Hg _]. discriminate.
  - apply (settles_finalizeEntry _ H).
  - unfold exec, enter, bind. cbn [get entry stack].
    destruct (last s); now rewrite push_idle.
Qed.

Lemma stable_typing_loadMemory pos : stable InvTyping (loadMemory pos).
Proof.
  unfold loadMemory. apply stable_bind; [apply stable_get | intros c].
  apply stable_bind; [apply stable_lift | intros v].
  apply settles_stable, settles_push.
Qed.

Lemma stable_typing_button_lam (lam : callable) :
  button_lam lam -> stable InvTyping (OperationButton_do lam).
Proof.
  intros [i Hi | | | | | | | v | | | g | g]; cbn [OperationButton_do].
  - apply stable_typing_enterDigit, Hi.
  - apply stable_typing_backspace.
  - apply settles_stable, settles_clearStack.
  - apply stable_typing_decimal.
  - apply settles_stable, settles_enter.
  - apply same_stable. intros [e s m a h [er [|] sl cl]]; split; reflexivity.
  - apply settles_stable, settles_exchange.
  - apply settles_stable, settles_push.
  - apply settles_stable, settles_bind; [apply settles_pop | intro; idle].
  - apply settles_stable, settles_do_Lam1. intro. apply keeps_idle_pop.
  - apply settles_stable, settles_do_Lam1. intro. apply keeps_idle_lift.
  - apply settles_stable, settles_do_Lam2. intros. apply keeps_idle_lift.
Qed.

Lemma stable_typing_action (b : Button) : layout_button b -> stable InvTyping (action b).
Proof.
  intros [name lam alt altlam Hl Ha | tn tf itn itf hn hf ihn ihf |]; cbn [action].
  - apply stable_typing_button_lam, Hl.
  - apply settles_stable, settles_TrigButton_action.
  - apply same_stable. intros c. split; reflexivity.
Qed.

Lemma stable_typing_alternate (b : Button) :
  layout_button b -> stable InvTyping (alternate b).
Proof.
  intros [name lam alt altlam Hl Ha | tn tf itn itf hn hf ihn ihf |]; cbn [alternate].
  - destruct altlam as [l |];
      [apply stable_typing_button_lam, Ha; reflexivity | apply stable_ret].
  - apply settles_stable, settles_TrigButton_alternate.
  - apply same_stable. intros c. split; reflexivity.
Qed.

Lemma stable_typing_press (b : Button) : layout_button b -> stable InvTyping (press b).
Proof.
  intros Hb. unfold press.
  apply stable_bind; [apply same_stable; intros c; split; reflexivity | intros _].
  apply stable_bind; [apply stable_get | intros c].
  apply stable_bind.
  - destruct (shifted (gui c) && str_truthy (alt_name b));
      [apply stable_typing_alternate | apply stable_typing_action]; exact Hb.
  - intros _. apply stable_bind; [apply stable_get | intros c'].
    apply stable_when. apply same_stable. intros c0. split; reflexivity.
Qed.

Lemma stable_typing_engine_op (m : M unit) : engine_op m -> stable InvTyping m.
Proof.
  intros [v silent | silent | i Hi | | | | | | | | pos | pos | lam Hl | b Hb | b Hb | b Hb].
  - apply settles_stable, settles_push.
  - apply settles_stable, settles_bind; [apply settles_pop | intro; idle].
  - apply stable_typing_enterDigit, Hi.
  - apply settles_stable, settles_finalizeEntry.
  - apply settles_stable, settles_enter.
  - apply same_stable. intros [e s mm a h [er [|] sl cl]]; split; reflexivity.
  - apply stable_typing_decimal.
  - apply stable_typing_backspace.
  - apply settles_stable, settles_exchange.
  - apply settles_stable, settles_clearStack.
  - apply settles_stable, settles_saveMemory.
  - apply stable_typing_loadMemory.
  - apply stable_typing_button_lam, Hl.
  - apply stable_typing_action, Hb.
  - apply stable_typing_alternate, Hb.
  - apply stable_typing_press, Hb.
Qed.

Lemma reachable_Typing (c : Calculator) : reachable c -> Typing c.
Proof.
  intros Hr. enough (InvTyping c) as [_ H] by exact H.
  induction Hr as [| c m Hc IH Hm]; [split; exact I |].
  apply (stable_typing_engine_op m Hm c IH).
Qed.

(** While a text is being typed in a reachable state, register X reads the
    placeholder 0: the value typed is not on the stack until the entry is
    finalized. *)
Theorem X26_typing_register_reads_zero (c : Calculator) (text : string) :
  reachable c -> entry c = Some text ->
  getRegister 0 c = 0%float /\ last (stack c) = Some 0%float.
Proof.
  intros Hr He. apply reachable_Typing in Hr. unfold Typing in Hr. rewrite He in Hr.
  destruct Hr as [_ Hl]. split; [| exact Hl].
  rewrite getRegister_rev.
  destruct (snoc_cases (stack c)) as [E | (s & x & E)]; rewrite E in Hl |- *.
  - discriminate.
  - rewrite last_snoc in Hl. inversion Hl. now rewrite rev_unit.
Qed.

Lemma X26_witness :
  getRegister 0 typed_3_enter_5 = 0%float /\ last (stack typed_3_enter_5) = Some 0%float.
Proof.
  apply (X26_typing_register_reads_zero typed_3_enter_5 "5" reachable_typed_3_enter_5).
  reflexivity.
Defined.

(** The text being typed in a reachable state never has a redundant leading
    zero: its whole part is a lone "0" or starts with a character other
    than "0" (enterDigit replaces a lone "0", backspace ends the entry on
    it). *)
Theorem X27_typed_text_has_no_leading_zero (c : Calculator) (text : string) :
  reachable c -> entry c = Some text ->
  let whole := fst (fst (partition "."%char text)) in
  whole = "0"%string \/ exists a r, whole = String a r /\ a <> "0"%char.
Proof.
  intros Hr He. apply reachable_Typing in Hr. unfold Typing in Hr. rewrite He in Hr.
  destruct Hr as [Hn _]. cbv zeta.
  destruct (fst (fst (partition "."%char text))) as [| a r]; [discriminate |].
  cbn [norm_whole] in Hn.
  destruct (Ascii.eqb_spec a "0"%char) as [-> | Hne].
  - cbn [negb orb] in Hn. apply String.eqb_eq in Hn. subst r. left. reflexivity.
  - right. eauto.
Qed.

Lemma X27_witness :
  let whole := fst (fst (partition "."%char "12")) in
  whole = "0"%string \/ exists a r, whole = String a r /\ a <> "0"%char.
Proof.
  apply (X27_typed_text_has_no_leading_zero typed_12 "12").
  - apply reachable_run_all; [apply reach_init |].
    repeat (apply Forall_cons; split; [apply op_enterDigit; lia |]). apply Forall_nil_2.
  - reflexivity.
Defined.

(** ** The label of the mode button *)

(** In a reachable state the unshifted label of the mode button names the
    angle unit in force ("Deg" exactly in DEG, "Rad" exactly in RAD), the
    button's action() changes it from one to the other, and the shifted
    label is always "Hyp". *)
Theorem X28_mode_label_names_the_unit (c : Calculator) :
  reachable c ->
  (getLabel TrigModeButton false c = "Deg"%string <-> angles c = DEG) /\
  (getLabel TrigModeButton false c = "Rad"%string <-> angles c = RAD) /\
  getLabel TrigModeButton false (exec TrigModeButton_action c)
    <> getLabel TrigModeButton false c /\
  getLabel TrigModeButton true c = "Hyp"%string.
Proof.
  intros Hr. apply reachable_angles in Hr.
  destruct c as [e s m a h g]. cbn in Hr |- *.
  destruct a; try congruence; repeat split; intros; congruence || discriminate.
Qed.

Lemma X28_witness :
  (getLabel TrigModeButton false typed_5 = "Deg"%string <-> angles typed_5 = DEG) /\
  (getLabel TrigModeButton false typed_5 = "Rad"%string <-> angles typed_5 = RAD) /\
  getLabel TrigModeButton false (exec TrigModeButton_action typed_5)
    <> getLabel TrigModeButton false typed_5 /\
  getLabel TrigModeButton true typed_5 = "Hyp"%string.
Proof. apply (X28_mode_label_names_the_unit typed_5 reachable_typed_5). Defined.
